(** * Element Call: URL parameters, session loading, call view, active focus

    A shallow embedding of
      - [src/UrlParams.ts]            (launch parameters, room identifier),
      - [src/room/useLoadGroupCall.ts] (the session load hook),
      - [src/room/GroupCallView.tsx]   (the call view: rendering and leaving),
      - [src/room/useActiveFocus.ts]   (the active focus hook),
      - [src/room/AppSelectionModal.tsx], [src/room/VideoPreview.tsx] and
        [src/home/CallList.tsx]        (the parts the properties are about),
    followed by the properties established about them.

    JavaScript strings are modelled by [string] (a sequence of bytes, the
    UTF-8 form of the text); indices are [Z] so that the [-1] of [indexOf]
    and the clamping of [substring] are the ones of the language.  The
    parser of [URLSearchParams] decodes its bytes as UTF-8, as the
    platform does. *)

From Stdlib Require Import String Ascii List Bool Arith ZArith Lia.
Import ListNotations.
Open Scope string_scope.

(* ================================================================== *)
(** ** String.prototype, as far as the sources use it *)

Module Js.

Fixpoint take (n : nat) (s : string) : string :=
  match n, s with
  | S k, String c r => String c (take k r)
  | _, _ => ""
  end.

Fixpoint drop (n : nat) (s : string) : string :=
  match n, s with
  | S k, String _ r => drop k r
  | _, _ => s
  end.

(** An index argument of [substring]: NaN and negatives count as [0],
    anything past the end as the length. *)
Definition clamp (s : string) (i : Z) : nat :=
  Nat.min (Z.to_nat i) (String.length s).

(** [s.substring(a, b)]: both ends clamped, and swapped when [a > b]. *)
Definition substring (s : string) (a b : Z) : string :=
  let a' := clamp s a in
  let b' := clamp s b in
  take (Nat.max a' b' - Nat.min a' b') (drop (Nat.min a' b') s).

(** [s.substring(a)] *)
Definition substringFrom (s : string) (a : Z) : string :=
  drop (clamp s a) s.

(** [s.startsWith(p)] *)
Fixpoint startsWith (p s : string) : bool :=
  match p, s with
  | "", _ => true
  | String a p', String b s' => Ascii.eqb a b && startsWith p' s'
  | String _ _, "" => false
  end.

Fixpoint indexOfFrom (needle s : string) (i : Z) : Z :=
  if startsWith needle s then i
  else match s with
       | "" => (-1)%Z
       | String _ r => indexOfFrom needle r (i + 1)%Z
       end.

(** [s.indexOf(needle)], [-1] when there is no occurrence. *)
Definition indexOf (needle s : string) : Z := indexOfFrom needle s 0.

(** [s.includes(needle)] *)
Fixpoint includes (needle s : string) : bool :=
  startsWith needle s ||
  match s with
  | "" => false
  | String _ r => includes needle r
  end.

(** [s.split(sep)] for a one-character separator: never the empty list. *)
Fixpoint split (sep : ascii) (s : string) : list string :=
  match s with
  | "" => [""]
  | String c r =>
      if Ascii.eqb c sep then "" :: split sep r
      else match split sep r with
           | seg :: segs => String c seg :: segs
           | [] => [String c ""]
           end
  end.

(** [xs.pop()]: the last element, [undefined] on the empty array. *)
Fixpoint pop {A : Type} (xs : list A) : option A :=
  match xs with
  | [] => None
  | [x] => Some x
  | _ :: r => pop r
  end.

(** What [/^#*/] matches is removed by [dropWhileChar "#"]. *)
Fixpoint dropWhileChar (c : ascii) (s : string) : string :=
  match s with
  | String a r => if Ascii.eqb a c then dropWhileChar c r else s
  | "" => ""
  end.

(** [n] times the character [c]. *)
Fixpoint rep (c : ascii) (n : nat) : string :=
  match n with
  | 0 => ""
  | S k => String c (rep c k)
  end.

(** [s.replace(/^#*/, "#")] *)
Definition replaceLeadingHashes (s : string) : string :=
  String "#" (dropWhileChar "#" s).

(** [s[0]]: [undefined] on the empty string. *)
Definition charAt0 (s : string) : option ascii :=
  match s with
  | "" => None
  | String c _ => Some c
  end.

(** Truthiness of a [string | null | undefined]. *)
Definition truthyStr (s : option string) : bool :=
  match s with
  | Some (String _ _) => true
  | _ => false
  end.

(** Truthiness of a [boolean | null | undefined]. *)
Definition truthy (b : option bool) : bool :=
  match b with
  | Some true => true
  | _ => false
  end.

End Js.

(* ================================================================== *)
(** ** URLSearchParams (the platform's, as the URL standard defines it) *)

Module URLSearchParams.

(** An ordered list of name-value pairs; duplicates are kept. *)
Definition t : Type := list (string * string).

Definition hexVal (c : ascii) : option nat :=
  let n := nat_of_ascii c in
  if ((48 <=? n) && (n <=? 57))%nat then Some (n - 48)
  else if ((65 <=? n) && (n <=? 70))%nat then Some (n - 55)
  else if ((97 <=? n) && (n <=? 102))%nat then Some (n - 87)
  else None.

(** Percent-decoding: [%XY] with two hex digits is one byte, any other
    [%] stays. *)
Fixpoint percentDecode (s : string) : string :=
  match s with
  | "" => ""
  | String c r =>
      if Ascii.eqb c "%" then
        match r with
        | String h (String l r') =>
            match hexVal h, hexVal l with
            | Some a, Some b =>
                String (ascii_of_nat (16 * a + b)) (percentDecode r')
            | _, _ => String c (percentDecode r)
            end
        | _ => String c (percentDecode r)
        end
      else String c (percentDecode r)
  end.

(** In a query string [+] stands for a space. *)
Fixpoint plusToSpace (s : string) : string :=
  match s with
  | "" => ""
  | String c r =>
      String (if Ascii.eqb c "+" then " "%char else c) (plusToSpace r)
  end.

(** The three bytes of U+FFFD, which the UTF-8 decoder puts for what is
    not UTF-8. *)
Definition replacement : string :=
  String (ascii_of_nat 239) (String (ascii_of_nat 191) (String (ascii_of_nat 189) "")).

(** What the UTF-8 decoder makes of a byte where a character starts: a
    character of its own, the first of [1 + needed] bytes whose next one
    lies between [lower] and [upper], or an error. *)
Inductive Lead : Type :=
| LeadAscii
| LeadOf (needed lower upper : nat)
| LeadInvalid.

Definition lead (n : nat) : Lead :=
  if (n <=? 127)%nat then LeadAscii
  else if ((194 <=? n) && (n <=? 223))%nat then LeadOf 1 128 191
  else if ((224 <=? n) && (n <=? 239))%nat
  then LeadOf 2 (if (n =? 224)%nat then 160 else 128)
                (if (n =? 237)%nat then 159 else 191)
  else if ((240 <=? n) && (n <=? 244))%nat
  then LeadOf 3 (if (n =? 240)%nat then 144 else 128)
                (if (n =? 244)%nat then 143 else 191)
  else LeadInvalid.

(** The UTF-8 decoder of the Encoding standard, errors replaced, on the
    bytes [s]; [seen] are the bytes of the character under way, of which
    [needed] more are to come, the next one between [lower] and [upper].
    A text being its UTF-8 bytes here, a character decoded comes out as
    the bytes it came in as.  A byte that cannot go on a character ends
    it in an error and is read again as the start of one. *)
Fixpoint utf8From (s seen : string) (needed lower upper : nat) : string :=
  match s with
  | "" => if (needed =? 0)%nat then "" else replacement
  | String b r =>
      let n := nat_of_ascii b in
      let start :=
        match lead n with
        | LeadAscii => String b (utf8From r "" 0 128 191)
        | LeadOf k lo hi => utf8From r (String b "") k lo hi
        | LeadInvalid => replacement ++ utf8From r "" 0 128 191
        end in
      if (needed =? 0)%nat then start
      else if ((lower <=? n) && (n <=? upper))%nat
      then if (needed =? 1)%nat
           then seen ++ String b (utf8From r "" 0 128 191)
           else utf8From r (seen ++ String b "") (needed - 1) 128 191
      else replacement ++ start
  end.

(** "UTF-8 decode without BOM" *)
Definition utf8Decode (s : string) : string := utf8From s "" 0 128 191.

(** A name or a value of the urlencoded parser: [+] to space, the
    escapes to bytes, the bytes decoded as UTF-8. *)
Definition decode (s : string) : string :=
  utf8Decode (percentDecode (plusToSpace s)).

(** An ASCII character that stands for itself in a value: not [&], [+]
    or [%]. *)
Definition plainChar (c : ascii) : bool :=
  (nat_of_ascii c <=? 127)%nat
  && negb (Ascii.eqb c "&" || Ascii.eqb c "+" || Ascii.eqb c "%").

(** The pairs a text can have: names and values that are UTF-8. *)
Definition wellFormed (p : list (string * string)) : Prop :=
  Forall (fun kv => utf8Decode (fst kv) = fst kv /\ utf8Decode (snd kv) = snd kv) p.

(** The part of [s] before the first [c] (all of [s] when there is none)
    and the part after it ([None] when there is none). *)
Fixpoint cut (c : ascii) (s : string) : string * option string :=
  match s with
  | "" => ("", None)
  | String a r =>
      if Ascii.eqb a c then ("", Some r)
      else let (x, y) := cut c r in (String a x, y)
  end.

(** One [name=value] sequence; a sequence without [=] has the empty value. *)
Definition parsePair (seq : string) : string * string :=
  match cut "=" seq with
  | (name, Some value) => (decode name, decode value)
  | (name, None) => (decode name, "")
  end.

Definition isEmpty (s : string) : bool :=
  match s with "" => true | _ => false end.

(** The [application/x-www-form-urlencoded] parser: split on [&], skip
    empty sequences. *)
Definition parseUrlencoded (input : string) : t :=
  map parsePair (filter (fun q => negb (isEmpty q)) (Js.split "&" input)).

(** [new URLSearchParams(init)]: one leading [?] is dropped. *)
Definition ofString (init : string) : t :=
  match init with
  | String "?" r => parseUrlencoded r
  | _ => parseUrlencoded init
  end.

(** [params.get(name)]: the first value under [name], or [null]. *)
Fixpoint get (name : string) (p : t) : option string :=
  match p with
  | [] => None
  | (k, v) :: r => if String.eqb k name then Some v else get name r
  end.

(** [params.has(name)] *)
Definition has (name : string) (p : t) : bool :=
  existsb (fun kv => String.eqb (fst kv) name) p.

(** [params.getAll(name)] *)
Definition getAll (name : string) (p : t) : list string :=
  map snd (filter (fun kv => String.eqb (fst kv) name) p).

(** [params.set(name, value)]: the first pair under [name] takes the
    value, later ones go; appended when there is none. *)
Fixpoint set (name value : string) (p : t) : t :=
  match p with
  | [] => [(name, value)]
  | (k, v) :: r =>
      if String.eqb k name
      then (k, value) :: filter (fun kv => negb (String.eqb (fst kv) name)) r
      else (k, v) :: set name value r
  end.

Definition hexDigit (n : nat) : ascii :=
  if (n <? 10)%nat then ascii_of_nat (48 + n) else ascii_of_nat (55 + n).

(** Bytes the urlencoded serializer leaves as they are: ASCII letters
    and digits, and [*], [-], [.], [_]. *)
Definition unreserved (c : ascii) : bool :=
  let n := nat_of_ascii c in
  (((48 <=? n) && (n <=? 57)) || ((65 <=? n) && (n <=? 90)) ||
   ((97 <=? n) && (n <=? 122)) ||
   (n =? 42) || (n =? 45) || (n =? 46) || (n =? 95))%nat.

Fixpoint encode (s : string) : string :=
  match s with
  | "" => ""
  | String c r =>
      if unreserved c then String c (encode r)
      else if Ascii.eqb c " " then String "+" (encode r)
      else let n := nat_of_ascii c in
           String "%" (String (hexDigit (n / 16))
                         (String (hexDigit (n mod 16)) (encode r)))
  end.

Fixpoint join (sep : string) (xs : list string) : string :=
  match xs with
  | [] => ""
  | [x] => x
  | x :: r => x ++ sep ++ join sep r
  end.

(** [params.toString()] *)
Definition toString (p : t) : string :=
  join "&" (map (fun kv => encode (fst kv) ++ "=" ++ encode (snd kv)) p).

End URLSearchParams.

(* ================================================================== *)
(** ** src/UrlParams.ts *)

Module RoomIdentifier.
Record t : Type := {
  roomAlias : option string;
  roomId : option string;
  viaServers : list string
}.
End RoomIdentifier.

Module UrlParams.

Definition PASSWORD_PARAM : string := "password".

(** [interface UrlParams]; a [number] is whatever [parseFloat] yields
    that is not NaN. *)
Record t {Number : Type} : Type := {
  roomId : option string;
  isEmbedded : bool;
  preload : bool;
  hideHeader : bool;
  hideScreensharing : bool;
  e2eEnabled : bool;
  userId : option string;
  displayName : option string;
  deviceId : option string;
  baseUrl : option string;
  lang : option string;
  fonts : list string;
  fontScale : option Number;
  analyticsID : option string;
  allowIceFallback : bool;
  password : option string
}.
Arguments t : clear implicits.

(** [editFragmentQuery(hash, edit)] *)
Definition editFragmentQuery
    (hash : string) (edit : URLSearchParams.t -> URLSearchParams.t) : string :=
  let fragmentQueryStart := Js.indexOf "?" hash in
  let fragmentParams :=
    edit (URLSearchParams.ofString
            (if (fragmentQueryStart =? -1)%Z then ""
             else Js.substringFrom hash fragmentQueryStart)) in
  Js.substring hash 0 fragmentQueryStart
    ++ "?" ++ URLSearchParams.toString fragmentParams.

(** [class ParamParser] *)
Record ParamParser : Type := {
  fragmentParams : URLSearchParams.t;
  queryParams : URLSearchParams.t
}.

(** [new ParamParser(search, hash)] *)
Definition newParamParser (search hash : string) : ParamParser :=
  let fragmentQueryStart := Js.indexOf "?" hash in
  {| queryParams := URLSearchParams.ofString search;
     fragmentParams :=
       URLSearchParams.ofString
         (if (fragmentQueryStart =? -1)%Z then ""
          else Js.substringFrom hash fragmentQueryStart) |}.

(** The condition under which [hasParam] and [getParam] call
    [logger.warn] (the parameter came from the query string); the
    warning does not change what they return. *)
Definition warnsQueryParam (this : ParamParser) (name : string) : bool :=
  negb (URLSearchParams.has name (fragmentParams this))
  && URLSearchParams.has name (queryParams this).

Definition hasParam (this : ParamParser) (name : string) : bool :=
  URLSearchParams.has name (fragmentParams this)
  || URLSearchParams.has name (queryParams this).

(** [a ?? b] *)
Definition nullish {A : Type} (a b : option A) : option A :=
  match a with
  | Some x => Some x
  | None => b
  end.

Definition getParam (this : ParamParser) (name : string) : option string :=
  nullish (URLSearchParams.get name (fragmentParams this))
          (URLSearchParams.get name (queryParams this)).

Definition getAllParams (this : ParamParser) (name : string) : list string :=
  URLSearchParams.getAll name (fragmentParams this)
    ++ URLSearchParams.getAll name (queryParams this).

(** [x !== "false"] for an [x : string | null] *)
Definition notFalseLiteral (x : option string) : bool :=
  match x with
  | Some v => negb (String.eqb v "false")
  | None => true
  end.

Section WithPlatform.

(** [parseFloat], with [None] for NaN, and [Config.defaultServerName()],
    both from outside this file. *)
Context {Number : Type}.
Variable parseFloat : string -> option Number.
Variable defaultServerName : string.

(** [getUrlParams(search, hash)] *)
Definition getUrlParams (search hash : string) : t Number :=
  let parser := newParamParser search hash in
  let fontScale :=
    parseFloat (match getParam parser "fontScale" with
                | Some v => v
                | None => ""
                end) in
  {| roomId := getParam parser "roomId";
     password := getParam parser PASSWORD_PARAM;
     isEmbedded := hasParam parser "embed";
     preload := hasParam parser "preload";
     hideHeader := hasParam parser "hideHeader";
     hideScreensharing := hasParam parser "hideScreensharing";
     e2eEnabled := notFalseLiteral (getParam parser "enableE2e");
     userId := getParam parser "userId";
     displayName := getParam parser "displayName";
     deviceId := getParam parser "deviceId";
     baseUrl := getParam parser "baseUrl";
     lang := getParam parser "lang";
     fonts := getAllParams parser "font";
     fontScale := fontScale;
     analyticsID := getParam parser "analyticsID";
     allowIceFallback := hasParam parser "allowIceFallback" |}.

(** The [baseRoomString] of [getRoomIdentifierFromUrl]: the last path
    component, or (deprecated) the whole hash. *)
Definition baseRoomString (pathname hash : string) : option string :=
  if String.eqb hash "" || Js.startsWith "#?" hash
  then Js.pop (Js.split "/" pathname)
  else Some hash.

(** [getRoomIdentifierFromUrl(pathname, search, hash)] *)
Definition getRoomIdentifierFromUrl
    (pathname search hash : string) : RoomIdentifier.t :=
  let roomAlias :=
    match baseRoomString pathname hash with
    | Some base =>
        let roomAlias := Js.replaceLeadingHashes base in
        Some (if negb (Js.includes ":" roomAlias)
              then roomAlias ++ ":" ++ defaultServerName
              else roomAlias)
    | None => None
    end in
  let parser := newParamParser search hash in
  let roomId :=
    match getParam parser "roomId" with
    | Some r =>
        if negb (Js.startsWith "!" r) then None
        else if negb (Js.includes "" r) then None
        else Some r
    | None => None
    end in
  {| RoomIdentifier.roomAlias := roomAlias;
     RoomIdentifier.roomId := roomId;
     RoomIdentifier.viaServers := getAllParams parser "viaServers" |}.

End WithPlatform.

End UrlParams.

(* ================================================================== *)
(** ** The objects of the Matrix SDK the sources handle *)

Module Matrix.

(** What a [catch] clause reads of the value it caught. *)
Record MatrixError : Type := {
  errcode : option string;
  message : option string
}.

Record Room : Type := { roomId : string }.

(** [interface LivekitFocus] *)
Record LivekitFocus : Type := {
  type : string;
  livekit_service_url : string;
  livekit_alias : string
}.

(** [CallMembership]: [userId] is [membership.member.userId],
    [activeFoci] what [getActiveFoci()] returns. *)
Record CallMembership : Type := {
  sender : string;
  deviceId : string;
  userId : string;
  activeFoci : list LivekitFocus
}.

(** [MatrixRTCSession]; the SDK keeps [memberships] oldest first. *)
Record MatrixRTCSession : Type := {
  room : Room;
  memberships : list CallMembership
}.

(** [rtcSession.getOldestMembership()] is [this.memberships[0]]. *)
Definition getOldestMembership (s : MatrixRTCSession) : option CallMembership :=
  hd_error (memberships s).

Inductive SyncState : Type :=
| SyncError | Prepared | Stopped | Syncing | Catchup | Reconnecting.

Definition isSyncing (s : SyncState) : bool :=
  match s with Syncing => true | _ => false end.

Definition optStringEqb (a b : option string) : bool :=
  match a, b with
  | Some x, Some y => String.eqb x y
  | None, None => true
  | _, _ => false
  end.

End Matrix.

(** How a promise ends: with a value, with a thrown error, or never. *)
Inductive Settled (A : Type) : Type :=
| Resolved (a : A)
| Rejected (e : Matrix.MatrixError)
| Pending.
Arguments Resolved {A} a.
Arguments Rejected {A} e.
Arguments Pending {A}.

(* ================================================================== *)
(** ** src/room/useLoadGroupCall.ts *)

Module LoadGroupCall.
Import Matrix.

(** [type GroupCallStatus], by its [kind]. *)
Inductive GroupCallStatus : Type :=
| Loaded (rtcSession : MatrixRTCSession)
| Failed (error : MatrixError)
| Loading.

Definition isLoading (s : GroupCallStatus) : bool :=
  match s with Loading => true | _ => false end.

(** What one run of the effect does that can be seen from outside, in
    the order it does it. *)
Inductive Event : Type :=
| EJoinRoom (idOrAlias : string) (viaServers : list string)
| EWaitUntilRoomReady (roomId : string)
| ECreateRoom (name : string) (ptt e2ee : bool)
| ESetLocalStorageItem (key value : string)
| EGetRoom (roomId : string)
| EGetRoomSession (room : option Room)
| ELog (msg : string)
| ESetState (s : GroupCallStatus).

Definition isCreateRoom (e : Event) : bool :=
  match e with ECreateRoom _ _ _ => true | _ => false end.

Definition isSetLoaded (e : Event) : bool :=
  match e with ESetState (Loaded _) => true | _ => false end.

Definition isSetLocalStorageItem (e : Event) : bool :=
  match e with ESetLocalStorageItem _ _ => true | _ => false end.

(** Neither a room creation, nor a write to local storage, nor a
    [setState]. *)
Definition quiet (e : Event) : bool :=
  match e with
  | ECreateRoom _ _ _ | ESetLocalStorageItem _ _ | ESetState _ => false
  | _ => true
  end.

(** The arguments of the hook and what else its effect depends on.
    Objects carry an identity ([client], [viaServersRef], [t]), since
    the dependency list compares them with [Object.is]. *)
Record Deps : Type := {
  client : nat;
  roomIdOrAlias : string;
  viaServersRef : nat;
  viaServers : list string;
  createPtt : bool;
  t : nat;
  e2eeEnabled : option bool
}.

Definition optBoolEqb (a b : option bool) : bool :=
  match a, b with
  | Some x, Some y => Bool.eqb x y
  | None, None => true
  | _, _ => false
  end.

(** [[client, roomIdOrAlias, viaServers, createPtt, t, e2eeEnabled]]
    differs between two renders. *)
Definition depsChanged (a b : Deps) : bool :=
  negb (Nat.eqb (client a) (client b)
        && String.eqb (roomIdOrAlias a) (roomIdOrAlias b)
        && Nat.eqb (viaServersRef a) (viaServersRef b)
        && Bool.eqb (createPtt a) (createPtt b)
        && Nat.eqb (t a) (t b)
        && optBoolEqb (e2eeEnabled a) (e2eeEnabled b)).

(** The 62 characters [randomString] of the SDK draws from. *)
Definition alphabet : list ascii :=
  list_ascii_of_string
    "ABCDEFGHIJKLMNOPQRSTUVWXYZabcdefghijklmnopqrstuvwxyz0123456789".

Section WithEnv.

(** Everything outside the hook: the homeserver, the SDK client, the
    random source. *)
Context {World : Type}.

(** The calls the effect makes on it.  [createRoom], [isLocalRoomId]
    and [roomNameFromRoomId] are those of [matrix-utils],
    [getRoomSharedKeyLocalStorageKey] that of [sharedKeyManagement];
    [syncEmissions w] lists the worlds at the [ClientEvent.Sync]
    emissions that follow [w]; [randomIndex n] is
    [Math.floor(Math.random() * n)]. *)
Record Env : Type := {
  getSyncState : World -> SyncState;
  syncEmissions : World -> list World;
  joinRoom : string -> list string -> World -> Settled Room * World;
  waitUntilRoomReadyForGroupCalls : string -> World -> Settled unit * World;
  createRoom : string -> bool -> bool -> World -> Settled (string * string) * World;
  getRoom : string -> World -> option Room;
  getRoomSession : option Room -> World -> Settled MatrixRTCSession * World;
  isLocalRoomId : string -> bool;
  roomNameFromRoomId : string -> string;
  getRoomSharedKeyLocalStorageKey : string -> string;
  toLowerCase : string -> string;
  randomIndex : nat -> World -> nat * World
}.

Variable env : Env.

(** The state one run of the effect threads: the world, the browser's
    local storage (latest write first) and the events so far. *)
Record St : Type := {
  world : World;
  localStorage : list (string * string);
  trace : list Event
}.

Definition Async (A : Type) : Type := St -> Settled A * St.

Definition ret {A : Type} (a : A) : Async A := fun st => (Resolved a, st).

Definition bind {A B : Type} (m : Async A) (k : A -> Async B) : Async B :=
  fun st =>
    match m st with
    | (Resolved a, st') => k a st'
    | (Rejected e, st') => (Rejected e, st')
    | (Pending, st') => (Pending, st')
    end.

Definition throw {A : Type} (e : MatrixError) : Async A :=
  fun st => (Rejected e, st).

(** [try { m } catch (error) { h error }] *)
Definition tryCatch {A : Type} (m : Async A) (h : MatrixError -> Async A) : Async A :=
  fun st =>
    match m st with
    | (Rejected e, st') => h e st'
    | r => r
    end.

Definition emit (e : Event) : Async unit :=
  fun st =>
    (Resolved tt,
     {| world := world st; localStorage := localStorage st;
        trace := trace st ++ [e] |}).

(** A call on the world, recorded when it is made. *)
Definition call {A : Type} (e : Event) (op : World -> Settled A * World) : Async A :=
  fun st =>
    let (r, w) := op (world st) in
    (r, {| world := w; localStorage := localStorage st;
           trace := trace st ++ [e] |}).

(** [setLocalStorageItem(key, value)] *)
Definition setLocalStorageItem (key value : string) : Async unit :=
  fun st =>
    (Resolved tt,
     {| world := world st;
        localStorage := (key, value) :: localStorage st;
        trace := trace st ++ [ESetLocalStorageItem key value] |}).

(** [localStorage.getItem(key)] *)
Fixpoint getItem (key : string) (store : list (string * string)) : option string :=
  match store with
  | [] => None
  | (k, v) :: r => if String.eqb k key then Some v else getItem key r
  end.

Local Notation "x <- m ;; k" := (bind m (fun x => k))
  (at level 61, m at next level, right associativity).
Local Notation "m ;;; k" := (bind m (fun _ => k))
  (at level 61, right associativity).

(** [randomString(len)] of the SDK: [len] draws from [alphabet],
    appended in the order drawn. *)
Fixpoint randomStringFrom (len : nat) (w : World) : string * World :=
  match len with
  | 0 => ("", w)
  | S n =>
      let (i, w1) := randomIndex env 62 w in
      let (r, w2) := randomStringFrom n w1 in
      (String (nth (i mod 62) alphabet "A"%char) r, w2)
  end.

Definition randomString (len : nat) : Async string :=
  fun st =>
    let (r, w) := randomStringFrom len (world st) in
    (Resolved r,
     {| world := w; localStorage := localStorage st; trace := trace st |}).

(** [error.errcode === "M_NOT_FOUND" ||
     (error.message && error.message.indexOf("Failed to fetch alias") !== -1)] *)
Definition isNotFound (error : MatrixError) : bool :=
  optStringEqb (errcode error) (Some "M_NOT_FOUND")
  || (Js.truthyStr (message error)
      && match message error with
         | Some m => negb (Js.indexOf "Failed to fetch alias" m =? -1)%Z
         | None => false
         end).

(** [e2eeEnabled ?? false] *)
Definition orFalse (b : option bool) : bool :=
  match b with Some x => x | None => false end.

Definition sanitisedIdOrAlias (d : Deps) : string :=
  match Js.charAt0 (roomIdOrAlias d) with
  | Some c => if Ascii.eqb c "#" then toLowerCase env (roomIdOrAlias d)
              else roomIdOrAlias d
  | None => roomIdOrAlias d
  end.

(** The [try] block of [fetchOrCreateRoom]. *)
Definition joinAttempt (d : Deps) : Async (option Room) :=
  let id := sanitisedIdOrAlias d in
  room <- call (EJoinRoom id (viaServers d)) (joinRoom env id (viaServers d)) ;;
  emit (ELog ("Joined " ++ id ++ ", waiting room to be ready for group calls")) ;;;
  call (EWaitUntilRoomReady (roomId room))
       (waitUntilRoomReadyForGroupCalls env (roomId room)) ;;;
  emit (ELog (id ++ ", is ready for group calls")) ;;;
  ret (Some room).

(** [client.getRoom(roomId)!]: the [!] is for the type checker only. *)
Definition getRoomNow (roomId : string) : Async (option Room) :=
  fun st =>
    (Resolved (getRoom env roomId (world st)),
     {| world := world st; localStorage := localStorage st;
        trace := trace st ++ [EGetRoom roomId] |}).

(** The branch of the [catch] clause that creates the room. *)
Definition createAttempt (d : Deps) : Async (option Room) :=
  let name := roomNameFromRoomId env (roomIdOrAlias d) in
  let e2ee := orFalse (e2eeEnabled d) in
  created <- call (ECreateRoom name (createPtt d) e2ee)
                  (createRoom env name (createPtt d) e2ee) ;;
  let roomId := snd created in
  (if Js.truthy (e2eeEnabled d)
   then key <- randomString 32 ;;
        setLocalStorageItem (getRoomSharedKeyLocalStorageKey env roomId) key
   else ret tt) ;;;
  call (EWaitUntilRoomReady roomId)
       (waitUntilRoomReadyForGroupCalls env roomId) ;;;
  getRoomNow roomId.

(** The condition of the [catch] clause. *)
Definition qualifies (d : Deps) (error : MatrixError) : bool :=
  isLocalRoomId env (roomIdOrAlias d) && isNotFound error.

Definition fetchOrCreateRoom (d : Deps) : Async (option Room) :=
  tryCatch (joinAttempt d)
    (fun error => if qualifies d error then createAttempt d else throw error).

Definition fetchOrCreateGroupCall (d : Deps) : Async MatrixRTCSession :=
  room <- fetchOrCreateRoom d ;;
  emit (ELog ("Fetched / joined room " ++ roomIdOrAlias d)) ;;;
  call (EGetRoomSession room) (getRoomSession env room).

(** Resolves at once when the client is syncing, else at the first
    [Sync] emission at which it is; never, when there is none. *)
Definition waitForClientSyncing : Async unit :=
  fun st =>
    if isSyncing (getSyncState env (world st)) then (Resolved tt, st)
    else
      let waiting :=
        (trace st ++ [ELog "useLoadGroupCall: waiting for client to start syncing..."])%list in
      match find (fun w => isSyncing (getSyncState env w))
                 (syncEmissions env (world st)) with
      | Some w =>
          (Resolved tt,
           {| world := w; localStorage := localStorage st;
              trace := (waiting ++ [ELog "useLoadGroupCall: client is now syncing."])%list |})
      | None =>
          (Pending,
           {| world := world st; localStorage := localStorage st;
              trace := waiting |})
      end.

(** [waitForClientSyncing().then(fetchOrCreateGroupCall)] *)
Definition loadChain (d : Deps) : Async MatrixRTCSession :=
  waitForClientSyncing ;;; fetchOrCreateGroupCall d.

(** The argument of the [setState] that [.then] or [.catch] makes. *)
Definition settledStatus (r : Settled MatrixRTCSession) : option GroupCallStatus :=
  match r with
  | Resolved rtcSession => Some (Loaded rtcSession)
  | Rejected error => Some (Failed error)
  | Pending => None
  end.

(** One run of the effect of [useLoadGroupCall], to the end of its
    promise chain: the status it sets, if it sets one, and the state
    it leaves. *)
Definition effect (d : Deps) (st : St) : option GroupCallStatus * St :=
  let (r, st') := loadChain d st in
  match settledStatus r with
  | Some s =>
      (Some s,
       {| world := world st'; localStorage := localStorage st';
          trace := trace st' ++ [ESetState s] |})
  | None => (None, st')
  end.

Definition initialSt (w : World) : St :=
  {| world := w; localStorage := []; trace := [] |}.

(** *** The hook over its lifetime *)

(** A mounted hook: its [state], the dependencies of the last render,
    the [setState] calls of effect runs whose chain has not settled
    yet, and the outside. *)
Record Hook : Type := {
  state : GroupCallStatus;
  lastDeps : Deps;
  inFlight : list GroupCallStatus;
  outside : St
}.

Definition startEffect (d : Deps) (s : GroupCallStatus)
    (pending : list GroupCallStatus) (st : St) : Hook :=
  let (r, st') := loadChain d st in
  {| state := s; lastDeps := d;
     inFlight := match settledStatus r with
                 | Some s' => pending ++ [s']
                 | None => pending
                 end;
     outside := st' |}.

(** The first render: [useState({ kind: "loading" })], then the effect. *)
Definition mount (d : Deps) (w : World) : Hook :=
  startEffect d Loading [] (initialSt w).

Inductive HookEvent : Type :=
| Render (d : Deps)
| Settle (k : nat).

Fixpoint removeNth {A : Type} (k : nat) (xs : list A) : list A :=
  match k, xs with
  | 0, _ :: r => r
  | S k', x :: r => x :: removeNth k' r
  | _, [] => []
  end.

(** A later render runs the effect again when a dependency changed;
    [Settle k] is the end of the [k]-th chain in flight, whose
    [setState] then takes place. *)
Definition step (h : Hook) (ev : HookEvent) : Hook :=
  match ev with
  | Render d =>
      if depsChanged (lastDeps h) d
      then startEffect d (state h) (inFlight h) (outside h)
      else h
  | Settle k =>
      match nth_error (inFlight h) k with
      | Some s =>
          {| state := s; lastDeps := lastDeps h;
             inFlight := removeNth k (inFlight h);
             outside :=
               {| world := world (outside h);
                  localStorage := localStorage (outside h);
                  trace := trace (outside h) ++ [ESetState s] |} |}
      | None => h
      end
  end.

Definition run (h : Hook) (evs : list HookEvent) : Hook :=
  fold_left step evs h.

(** No later render changes a dependency. *)
Fixpoint sameDeps (d : Deps) (evs : list HookEvent) : bool :=
  match evs with
  | [] => true
  | Render d' :: r => negb (depsChanged d d') && sameDeps d r
  | Settle _ :: r => sameDeps d r
  end.

(** Every [setState] still to come sets [loaded] or [failed]. *)
Definition inFlightSettled (h : Hook) : Prop :=
  Forall (fun s => isLoading s = false) (inFlight h).

(** The hook as it is while the effect has run once, for [d] from the
    world [w]: still loading with that run's [setState] to come (if
    its chain settles at all), or in the state that run has set. *)
Definition singleRun (d : Deps) (w : World) (h : Hook) : Prop :=
  let outcome := settledStatus (fst (loadChain d (initialSt w))) in
  lastDeps h = d
  /\ ((state h = Loading
       /\ inFlight h = match outcome with Some s => [s] | None => [] end)
      \/ (outcome = Some (state h) /\ inFlight h = [])).

End WithEnv.

Arguments Env World : clear implicits.
Arguments St World : clear implicits.
Arguments Async World A : clear implicits.
Arguments Hook World : clear implicits.

End LoadGroupCall.

(* ================================================================== *)
(** ** src/room/GroupCallView.tsx *)

Module GroupCallView.
Import Matrix.

(** What the component returns. *)
Inductive View : Type :=
| ErrorView (message : string)
| IncompatibleBrowserView
| ActiveCallView (e2eeConfig : option string) (onShareClick : bool)
| CallEndedView (leaveError : option MatrixError)
| NothingView
| LobbyView (onShareClick : bool).

Record Props : Type := {
  isPasswordlessUser : bool;
  confineToRoom : bool;
  preload : bool;
  skipLobby : bool;
  hideHeader : bool;
  rtcSession : MatrixRTCSession
}.

(** What a render reads besides its props: the values of its hooks, of
    its own state, and of the modules [widget], [livekit-client] and
    [PosthogAnalytics]. *)
Record Reads : Type := {
  isJoined : bool;
  e2eeSharedKey : option string;
  isRoomE2EE : option bool;
  e2eeEnabled : option bool;
  isE2EESupported : bool;
  joinRuleIsPublic : bool;
  left : bool;
  leaveError : option MatrixError;
  analyticsIsEnabled : bool;
  widget : bool
}.

Definition noKeyMessage : string :=
  "No E2EE key provided: please make sure the URL you're using to join this call has been retrieved using the in-app button.".

Definition isSome {A : Type} (x : option A) : bool :=
  match x with Some _ => true | None => false end.

(** The [return] of [GroupCallView], in the order of its tests. *)
Definition render (p : Props) (r : Reads) : View :=
  let e2eeConfig :=
    if Js.truthyStr (e2eeSharedKey r) then e2eeSharedKey r else None in
  if Js.truthy (e2eeEnabled r) && Js.truthy (isRoomE2EE r)
     && negb (Js.truthyStr (e2eeSharedKey r))
  then ErrorView noKeyMessage
  else if negb (isE2EESupported r) && Js.truthy (isRoomE2EE r)
  then IncompatibleBrowserView
  else if negb (Js.truthy (e2eeEnabled r)) && Js.truthy (isRoomE2EE r)
  then ErrorView "You need to enable E2EE to join."
  else if isJoined r
  then ActiveCallView e2eeConfig (joinRuleIsPublic r)
  else if left r
  then if isPasswordlessUser p
          || (analyticsIsEnabled r && negb (widget r))
          || isSome (leaveError r)
       then CallEndedView (leaveError r)
       else NothingView
  else if preload p
  then NothingView
  else LobbyView (joinRuleIsPublic r).

(** What [onLeave] does that can be seen from outside. *)
Inductive Effect : Type :=
| SetLeaveError (e : option MatrixError)
| SetLeft (b : bool)
| TrackCallEnded (roomId : string) (participants : nat) (sendInstantly : bool)
| LeaveRTCSession (roomId : string)
| SetAlwaysOnScreen (b : bool)
| AnalyticsLogout
| SendHangupCall
| HistoryPush (path : string).

Definition isHistoryPush (e : Effect) : bool :=
  match e with HistoryPush _ => true | _ => false end.

Section WithAnalytics.

(** [PosthogAnalytics.instance]: its state and the three calls made
    on it. *)
Variable Analytics : Type.
Variable track : string -> nat -> bool -> Analytics -> Analytics.
Variable logout : Analytics -> Analytics.
Variable isEnabled : Analytics -> bool.

(** The state [onLeave] works on; [clock] is in milliseconds. *)
Record St : Type := {
  st_left : bool;
  st_leaveError : option MatrixError;
  analytics : Analytics;
  clock : nat
}.

(** A computation that changes the state and lists its effects, each
    with the time it happens at. *)
Definition Act : Type := St -> St * list (nat * Effect).

Definition andThen (a b : Act) : Act :=
  fun s =>
    let (s1, e1) := a s in
    let (s2, e2) := b s1 in
    (s2, (e1 ++ e2)%list).

Definition skip : Act := fun s => (s, []).

Definition act (f : St -> St) (e : Effect) : Act :=
  fun s => (f s, [(clock s, e)]).

Definition setLeaveError (e : option MatrixError) : Act :=
  act (fun s => {| st_left := st_left s; st_leaveError := e;
                   analytics := analytics s; clock := clock s |})
      (SetLeaveError e).

Definition setLeft (b : bool) : Act :=
  act (fun s => {| st_left := b; st_leaveError := st_leaveError s;
                   analytics := analytics s; clock := clock s |})
      (SetLeft b).

Definition onAnalytics (f : Analytics -> Analytics) (e : Effect) : Act :=
  act (fun s => {| st_left := st_left s; st_leaveError := st_leaveError s;
                   analytics := f (analytics s); clock := clock s |})
      e.

(** [await new Promise((resolve) => window.setTimeout(resolve, ms))]:
    the timer fires [ms] milliseconds later, or [lag] later than that. *)
Definition sleep (ms lag : nat) : Act :=
  fun s => ({| st_left := st_left s; st_leaveError := st_leaveError s;
               analytics := analytics s; clock := clock s + ms + lag |},
            []).

Local Infix ">>" := andThen (at level 61, left associativity).

(** The test before [history.push("/")]. *)
Definition goesHome (p : Props) (a : Analytics) : bool :=
  negb (isPasswordlessUser p) && negb (confineToRoom p) && negb (isEnabled a).

(** [onLeave(leaveError)]; [widget] says whether the module's
    [widget] is not null, [lag] how late the timer is. *)
Definition onLeave (p : Props) (widget : bool) (lag : nat)
    (leaveError : option MatrixError) : Act :=
  let session := rtcSession p in
  let sendInstantly := widget in
  setLeaveError leaveError >>
  setLeft true >>
  onAnalytics
    (track (roomId (room session)) (length (memberships session)) sendInstantly)
    (TrackCallEnded (roomId (room session)) (length (memberships session))
                    sendInstantly) >>
  act (fun s => s) (LeaveRTCSession (roomId (room session))) >>
  (if widget
   then sleep 10 lag >>
        act (fun s => s) (SetAlwaysOnScreen false) >>
        onAnalytics logout AnalyticsLogout >>
        act (fun s => s) SendHangupCall
   else skip) >>
  (fun s =>
     if goesHome p (analytics s)
     then act (fun s => s) (HistoryPush "/") s
     else skip s).

(** [onLeave] pushed a location on the history. *)
Definition navigated (r : St * list (nat * Effect)) : bool :=
  existsb (fun te => isHistoryPush (snd te)) (snd r).

End WithAnalytics.

Arguments st_left {Analytics} s.
Arguments st_leaveError {Analytics} s.
Arguments analytics {Analytics} s.
Arguments clock {Analytics} s.
Arguments goesHome {Analytics} isEnabled p a.
Arguments onLeave {Analytics} track logout isEnabled p widget lag leaveError.
Arguments navigated {Analytics} r.

End GroupCallView.

(* ================================================================== *)
(** ** src/room/useActiveFocus.ts *)

Module ActiveFocus.
Import Matrix.

Definition focusEqb (a b : LivekitFocus) : bool :=
  String.eqb (type a) (type b)
  && String.eqb (livekit_service_url a) (livekit_service_url b)
  && String.eqb (livekit_alias a) (livekit_alias b).

(** [deepCompare] of the SDK on a [LivekitFocus | undefined]: equal
    when both are undefined, or both are objects with the same own
    properties holding equal strings. *)
Definition deepCompare (x y : option LivekitFocus) : bool :=
  match x, y with
  | None, None => true
  | Some a, Some b => focusEqb a b
  | _, _ => false
  end.

(** [getActiveFocus(rtcSession)]: the focus and what it logs. *)
Definition getActiveFocus (rtcSession : MatrixRTCSession)
    : option LivekitFocus * list string :=
  let oldestMembership := getOldestMembership rtcSession in
  let focus :=
    match oldestMembership with
    | Some m => hd_error (activeFoci m)
    | None => None
    end in
  (focus,
   match focus, oldestMembership with
   | Some _, Some m =>
       ["Got active focus for call from " ++ sender m ++ "/" ++ deviceId m]
   | _, _ => []
   end).

(** The hook: the published value ([activeFocus]), the arguments of the
    [setActiveFocus] calls made so far, and the log. *)
Record Hook : Type := {
  activeFocus : option LivekitFocus;
  setActiveFocusCalls : list (option LivekitFocus);
  log : list string
}.

(** [useState(() => getActiveFocus(rtcSession))] *)
Definition useActiveFocus (rtcSession : MatrixRTCSession) : Hook :=
  let (focus, l) := getActiveFocus rtcSession in
  {| activeFocus := focus; setActiveFocusCalls := []; log := l |}.

(** [onMembershipsChanged()], with the render that a [setActiveFocus]
    call brings about. *)
Definition onMembershipsChanged (h : Hook) (rtcSession : MatrixRTCSession) : Hook :=
  let (newActiveFocus, l) := getActiveFocus rtcSession in
  if negb (deepCompare (activeFocus h) newActiveFocus)
  then {| activeFocus := newActiveFocus;
          setActiveFocusCalls := setActiveFocusCalls h ++ [newActiveFocus];
          log := log h ++ l |}
  else {| activeFocus := activeFocus h;
          setActiveFocusCalls := setActiveFocusCalls h;
          log := log h ++ l |}.

End ActiveFocus.

(* ================================================================== *)
(** ** The helper of the specification *)

Module Spec.

(** The portion of [hash] before its first [?]; all of it when it has
    none. *)
Definition hashPrefix (hash : string) : string :=
  fst (URLSearchParams.cut "?" hash).

(** The query embedded in [hash]: what follows its first [?]. *)
Definition embeddedQuery (hash : string) : string :=
  match snd (URLSearchParams.cut "?" hash) with
  | Some q => q
  | None => ""
  end.

(** "Parses the hash's embedded query, applies a caller-supplied
    transform, and re-serializes it back onto the original hash
    prefix." *)
Definition editFragmentQuery
    (hash : string) (edit : URLSearchParams.t -> URLSearchParams.t) : string :=
  hashPrefix hash ++ "?"
    ++ URLSearchParams.toString
         (edit (URLSearchParams.parseUrlencoded (embeddedQuery hash))).

(** "Reads each named parameter preferentially from the hash's embedded
    query segment (the portion of the hash after its own "?"), falling
    back to the page's query string": the value of the parameter [name]
    of a URL with the query [search] and the hash [hash]. *)
Definition urlParam (name search hash : string) : option string :=
  match URLSearchParams.get name
          (URLSearchParams.parseUrlencoded (embeddedQuery hash)) with
  | Some value => Some value
  | None => URLSearchParams.get name (URLSearchParams.ofString search)
  end.

(** "On leaving a call in embedded/widget mode, the externally
    observable effects occur in this order: local state transitions to
    'left' with any leave error recorded, the call-ended analytics event
    is recorded, the session is left, then after a delay of at least
    10 ms the 'always on screen' signal is cleared, analytics is logged
    out, and finally the hangup notification is sent to the host." *)
Definition widgetLeaveOrder
    (roomId : string) (participants : nat) (leaveError : option Matrix.MatrixError)
    : list GroupCallView.Effect :=
  [GroupCallView.SetLeaveError leaveError;
   GroupCallView.SetLeft true;
   GroupCallView.TrackCallEnded roomId participants true;
   GroupCallView.LeaveRTCSession roomId;
   GroupCallView.SetAlwaysOnScreen false;
   GroupCallView.AnalyticsLogout;
   GroupCallView.SendHangupCall].

(** "When not embedded, not confined to a single room, and analytics
    is not active, navigates back to the home screen." *)
Definition navigatesHome (embedded confined analyticsActive : bool) : bool :=
  negb embedded && negb confined && negb analyticsActive.

End Spec.

(* ================================================================== *)
(** ** Concrete inputs *)

Module Examples.
Import Matrix.

Definition emptySession : MatrixRTCSession :=
  {| room := {| roomId := "!abc:example.org" |}; memberships := [] |}.

Definition joinedProps : GroupCallView.Props :=
  {| GroupCallView.isPasswordlessUser := false;
     GroupCallView.confineToRoom := false;
     GroupCallView.preload := false;
     GroupCallView.skipLobby := false;
     GroupCallView.hideHeader := false;
     GroupCallView.rtcSession := emptySession |}.

(** Joined, in an encrypted room, with encryption on and no key. *)
Definition joinedNoKey : GroupCallView.Reads :=
  {| GroupCallView.isJoined := true;
     GroupCallView.e2eeSharedKey := None;
     GroupCallView.isRoomE2EE := Some true;
     GroupCallView.e2eeEnabled := Some true;
     GroupCallView.isE2EESupported := true;
     GroupCallView.joinRuleIsPublic := false;
     GroupCallView.left := false;
     GroupCallView.leaveError := None;
     GroupCallView.analyticsIsEnabled := false;
     GroupCallView.widget := false |}.

Definition joinedWithKey : GroupCallView.Reads :=
  {| GroupCallView.isJoined := true;
     GroupCallView.e2eeSharedKey := Some "secret";
     GroupCallView.isRoomE2EE := Some true;
     GroupCallView.e2eeEnabled := Some true;
     GroupCallView.isE2EESupported := true;
     GroupCallView.joinRuleIsPublic := false;
     GroupCallView.left := false;
     GroupCallView.leaveError := None;
     GroupCallView.analyticsIsEnabled := false;
     GroupCallView.widget := false |}.

Definition guestProps : GroupCallView.Props :=
  {| GroupCallView.isPasswordlessUser := true;
     GroupCallView.confineToRoom := false;
     GroupCallView.preload := false;
     GroupCallView.skipLobby := false;
     GroupCallView.hideHeader := false;
     GroupCallView.rtcSession := emptySession |}.

Definition focusA : LivekitFocus :=
  {| type := "livekit";
     livekit_service_url := "https://sfu-a.example.org";
     livekit_alias := "!abc:example.org" |}.

Definition focusB : LivekitFocus :=
  {| type := "livekit";
     livekit_service_url := "https://sfu-b.example.org";
     livekit_alias := "!abc:example.org" |}.

Definition member (user device : string) (foci : list LivekitFocus) : CallMembership :=
  {| sender := user; deviceId := device; userId := user; activeFoci := foci |}.

(** Alice is the oldest member and advertises [focusA]. *)
Definition sessionA : MatrixRTCSession :=
  {| room := {| roomId := "!abc:example.org" |};
     memberships := [member "@alice:example.org" "AAA" [focusA; focusB]] |}.


(** Alice has left; Bob, with [focusB], is the oldest. *)
Definition sessionB : MatrixRTCSession :=
  {| room := {| roomId := "!abc:example.org" |};
     memberships := [member "@bob:example.org" "BBB" [focusB]] |}.

(** A homeserver [example.org] on which [#room:example.org] exists,
    [#new:example.org] does not, and everything else is forbidden; the
    world is the state of the random source. *)
Definition homeserver : LoadGroupCall.Env nat :=
  {| LoadGroupCall.getSyncState := fun _ => Syncing;
     LoadGroupCall.syncEmissions := fun _ => [];
     LoadGroupCall.joinRoom := fun id _ w =>
       if String.eqb id "#room:example.org"
       then (Resolved {| roomId := "!abc:example.org" |}, w)
       else if String.eqb id "#new:example.org"
       then (Rejected {| errcode := Some "M_NOT_FOUND";
                         message := Some "Room alias #new:example.org not found." |}, w)
       else (Rejected {| errcode := Some "M_FORBIDDEN";
                         message := Some "You are not invited to this room." |}, w);
     LoadGroupCall.waitUntilRoomReadyForGroupCalls := fun _ w => (Resolved tt, w);
     LoadGroupCall.createRoom := fun _ _ _ w =>
       (Resolved ("#new:example.org", "!new:example.org"), w);
     LoadGroupCall.getRoom := fun id _ => Some {| roomId := id |};
     LoadGroupCall.getRoomSession := fun r w =>
       match r with
       | Some r => (Resolved {| room := r; memberships := [] |}, w)
       | None => (Rejected {| errcode := None;
                             message := Some "Cannot read properties of null" |}, w)
       end;
     LoadGroupCall.isLocalRoomId := fun id => Js.includes ":example.org" id;
     LoadGroupCall.roomNameFromRoomId := fun id =>
       fst (URLSearchParams.cut ":" (Js.dropWhileChar "#" id));
     LoadGroupCall.getRoomSharedKeyLocalStorageKey := fun id =>
       "room-shared-key-" ++ id;
     LoadGroupCall.toLowerCase := fun s => s;
     LoadGroupCall.randomIndex := fun _ w => (w, S w) |}.

Definition depsFor (id : string) : LoadGroupCall.Deps :=
  {| LoadGroupCall.client := 1;
     LoadGroupCall.roomIdOrAlias := id;
     LoadGroupCall.viaServersRef := 1;
     LoadGroupCall.viaServers := [];
     LoadGroupCall.createPtt := false;
     LoadGroupCall.t := 1;
     LoadGroupCall.e2eeEnabled := Some true |}.

Definition notFound : MatrixError :=
  {| errcode := Some "M_NOT_FOUND";
     message := Some "Room alias #new:example.org not found." |}.

Definition forbidden : MatrixError :=
  {| errcode := Some "M_FORBIDDEN";
     message := Some "You are not invited to this room." |}.

(** Analytics whose whole state is whether it is enabled. *)
Definition track (_ : string) (_ : nat) (_ : bool) (a : bool) : bool := a.
Definition logout (a : bool) : bool := a.
Definition isEnabled (a : bool) : bool := a.

Definition analyticsOff : GroupCallView.St bool :=
  {| GroupCallView.st_left := false;
     GroupCallView.st_leaveError := None;
     GroupCallView.analytics := false;
     GroupCallView.clock := 0 |}.

End Examples.

(* ================================================================== *)
(** ** src/room/AppSelectionModal.tsx *)

Module AppSelectionModal.

(** The edit [appUrl] makes: [params.set("appPrompt", "false")], then
    [params.set("confineToRoom", "true")]. *)
Definition confineEdit (params : URLSearchParams.t) : URLSearchParams.t :=
  URLSearchParams.set "confineToRoom" "true"
    (URLSearchParams.set "appPrompt" "false" params).

(** The value [appUrl] assigns to [url.hash]. *)
Definition appHash (hash : string) : string :=
  UrlParams.editFragmentQuery hash confineEdit.

End AppSelectionModal.

(* ================================================================== *)
(** ** More concrete inputs *)

Module Examples2.
Import Matrix.

Definition limitExceeded : MatrixError :=
  {| errcode := Some "M_LIMIT_EXCEEDED"; message := Some "Too Many Requests" |}.

(** [Examples.homeserver], refusing to create rooms. *)
Definition homeserverNoCreate : LoadGroupCall.Env nat :=
  {| LoadGroupCall.getSyncState := LoadGroupCall.getSyncState Examples.homeserver;
     LoadGroupCall.syncEmissions := LoadGroupCall.syncEmissions Examples.homeserver;
     LoadGroupCall.joinRoom := LoadGroupCall.joinRoom Examples.homeserver;
     LoadGroupCall.waitUntilRoomReadyForGroupCalls :=
       LoadGroupCall.waitUntilRoomReadyForGroupCalls Examples.homeserver;
     LoadGroupCall.createRoom := fun _ _ _ w => (Rejected limitExceeded, w);
     LoadGroupCall.getRoom := LoadGroupCall.getRoom Examples.homeserver;
     LoadGroupCall.getRoomSession := LoadGroupCall.getRoomSession Examples.homeserver;
     LoadGroupCall.isLocalRoomId := LoadGroupCall.isLocalRoomId Examples.homeserver;
     LoadGroupCall.roomNameFromRoomId :=
       LoadGroupCall.roomNameFromRoomId Examples.homeserver;
     LoadGroupCall.getRoomSharedKeyLocalStorageKey :=
       LoadGroupCall.getRoomSharedKeyLocalStorageKey Examples.homeserver;
     LoadGroupCall.toLowerCase := LoadGroupCall.toLowerCase Examples.homeserver;
     LoadGroupCall.randomIndex := LoadGroupCall.randomIndex Examples.homeserver |}.

(** The state after the join attempt of [id] on [Examples.homeserver]. *)
Definition afterJoin (id : string) : LoadGroupCall.St nat :=
  {| LoadGroupCall.world := 0;
     LoadGroupCall.localStorage := [];
     LoadGroupCall.trace := [LoadGroupCall.EJoinRoom id []] |}.

(** What a render reads after a call in a room that is not encrypted, in
    the page, not joined any more. *)
Definition afterCallReads : GroupCallView.Reads :=
  {| GroupCallView.isJoined := false;
     GroupCallView.e2eeSharedKey := None;
     GroupCallView.isRoomE2EE := Some false;
     GroupCallView.e2eeEnabled := Some true;
     GroupCallView.isE2EESupported := true;
     GroupCallView.joinRuleIsPublic := false;
     GroupCallView.left := false;
     GroupCallView.leaveError := None;
     GroupCallView.analyticsIsEnabled := false;
     GroupCallView.widget := false |}.

End Examples2.

(* ================================================================== *)
(** ** src/room/GroupCallView.tsx: the participants, and the render
       after leaving *)

Module Participants.

Section WithMember.

(** A membership of the session, the room member it belongs to
    ([membership.member]) and the member's user id. *)
Variables Membership RoomMember : Type.
Variable member : Membership -> RoomMember.
Variable userId : RoomMember -> string.

(** [addedUserIds.has(id)] *)
Definition has (id : string) (addedUserIds : list string) : bool :=
  existsb (String.eqb id) addedUserIds.

(** The [for] loop of [participatingMembers], with its two variables. *)
Fixpoint loop (memberships : list Membership)
    (addedUserIds : list string) (members : list RoomMember) : list RoomMember :=
  match memberships with
  | [] => members
  | membership :: rest =>
      if negb (has (userId (member membership)) addedUserIds)
      then loop rest
             (addedUserIds ++ [userId (member membership)])
             (members ++ [member membership])
      else loop rest addedUserIds members
  end.

Definition participatingMembers (memberships : list Membership) : list RoomMember :=
  loop memberships [] [].

End WithMember.

Arguments has id addedUserIds : assert.
Arguments loop {Membership RoomMember} member userId memberships addedUserIds members.
Arguments participatingMembers {Membership RoomMember} member userId memberships.

End Participants.

Module AfterLeave.
Import GroupCallView.

(** What a render reads once [onLeave] has run: [left], [leaveError] and
    the state of analytics are those [onLeave] has left. *)
Definition readsAfter {Analytics : Type} (isEnabled : Analytics -> bool)
    (r : Reads) (s : St Analytics) : Reads :=
  {| isJoined := isJoined r;
     e2eeSharedKey := e2eeSharedKey r;
     isRoomE2EE := isRoomE2EE r;
     e2eeEnabled := e2eeEnabled r;
     isE2EESupported := isE2EESupported r;
     joinRuleIsPublic := joinRuleIsPublic r;
     left := st_left s;
     leaveError := st_leaveError s;
     analyticsIsEnabled := isEnabled (analytics s);
     widget := widget r |}.

End AfterLeave.

(* ================================================================== *)
(** ** src/room/useActiveFocus.ts: the hook between renders *)

Module ActiveFocusRuns.
Import Matrix ActiveFocus.

(** The mounted hook.  [hook] has the state as the calls of
    [setActiveFocus] have left it.  [listenerFocus] is the [activeFocus]
    that the subscribed [onMembershipsChanged] has closed over: the one
    of the last committed render, whose [useCallback] made the listener
    and whose [useEffect] subscribed it. *)
Record Mounted : Type := {
  hook : Hook;
  listenerFocus : option LivekitFocus
}.

(** The first render and its effect. *)
Definition mount (rtcSession : MatrixRTCSession) : Mounted :=
  let h := useActiveFocus rtcSession in
  {| hook := h; listenerFocus := activeFocus h |}.

(** The subscribed listener runs, the session being as [rtcSession]:
    it compares the new focus with the focus it has closed over. *)
Definition membershipsChanged (m : Mounted) (rtcSession : MatrixRTCSession) : Mounted :=
  let (newActiveFocus, l) := getActiveFocus rtcSession in
  if negb (deepCompare (listenerFocus m) newActiveFocus)
  then {| hook := {| activeFocus := newActiveFocus;
                     setActiveFocusCalls :=
                       setActiveFocusCalls (hook m) ++ [newActiveFocus];
                     log := log (hook m) ++ l |};
          listenerFocus := listenerFocus m |}
  else {| hook := {| activeFocus := activeFocus (hook m);
                     setActiveFocusCalls := setActiveFocusCalls (hook m);
                     log := log (hook m) ++ l |};
          listenerFocus := listenerFocus m |}.

(** A render is committed: its listener, made with the state as it is
    now, replaces the one subscribed. *)
Definition commit (m : Mounted) : Mounted :=
  {| hook := hook m; listenerFocus := activeFocus (hook m) |}.

Inductive Event : Type :=
| MembershipsChanged (rtcSession : MatrixRTCSession)
| Commit.

Definition step (m : Mounted) (ev : Event) : Mounted :=
  match ev with
  | MembershipsChanged rtcSession => membershipsChanged m rtcSession
  | Commit => commit m
  end.

Definition run (m : Mounted) (evs : list Event) : Mounted :=
  fold_left step evs m.

(** Notifications with no render committed between them. *)
Definition notifications (sessions : list MatrixRTCSession) : list Event :=
  map MembershipsChanged sessions.

(** Notifications with a render committed after each. *)
Definition committed (sessions : list MatrixRTCSession) : list Event :=
  flat_map (fun rtcSession => [MembershipsChanged rtcSession; Commit]) sessions.

Definition focusOf (rtcSession : MatrixRTCSession) : option LivekitFocus :=
  fst (getActiveFocus rtcSession).

(** The focus of the session is not the one the listener has. *)
Definition differs (focus : option LivekitFocus) (rtcSession : MatrixRTCSession) : bool :=
  negb (deepCompare focus (focusOf rtcSession)).

(** No element is equal to the one after it. *)
Fixpoint distinctNeighbours {A : Type} (xs : list A) : Prop :=
  match xs with
  | a :: r =>
      match r with
      | b :: _ => a <> b /\ distinctNeighbours r
      | [] => True
      end
  | [] => True
  end.

End ActiveFocusRuns.

(* ================================================================== *)
(** ** src/room/VideoPreview.tsx: the options of the preview tracks *)

Module VideoPreview.

(** A track option of [usePreviewTracks]: [false], or an object with
    the [deviceId] if there is one. *)
Inductive TrackOptions : Type :=
| NoTrack
| Options (deviceId : option string).

(** What a render of the component reads. *)
Record Reads : Type := {
  audioEnabled : bool;
  audioSelectedId : option string;
  videoEnabled : bool;
  videoSelectedId : option string
}.

(** [x && { deviceId }] *)
Definition enabledOptions (enabled : bool) (deviceId : option string) : TrackOptions :=
  if enabled then Options deviceId else NoTrack.

(** [initialAudioOptions.current ??= muteStates.audio.enabled && {...}]:
    [None] is the [undefined] the ref starts with. *)
Definition initialAudioOptions (current : option TrackOptions) (r : Reads)
    : option TrackOptions :=
  match current with
  | Some options => Some options
  | None => Some (enabledOptions (audioEnabled r) (audioSelectedId r))
  end.

(** [Object.assign({}, x)]: an object in every case, empty for [false]
    and for [undefined]. *)
Definition assignToEmpty (x : option TrackOptions) : TrackOptions :=
  match x with
  | Some (Options deviceId) => Options deviceId
  | _ => Options None
  end.

(** The first argument of [usePreviewTracks] in a render, and the ref
    after it. *)
Definition render (current : option TrackOptions) (r : Reads)
    : (TrackOptions * TrackOptions) * option TrackOptions :=
  let current' := initialAudioOptions current r in
  ((assignToEmpty current',
    enabledOptions (videoEnabled r) (videoSelectedId r)),
   current').

(** The arguments of [usePreviewTracks] over the renders of a mounted
    component. *)
Fixpoint renders (current : option TrackOptions) (rs : list Reads)
    : list (TrackOptions * TrackOptions) :=
  match rs with
  | [] => []
  | r :: rest =>
      let (request, current') := render current r in
      request :: renders current' rest
  end.

End VideoPreview.

(* ================================================================== *)
(** ** src/home/CallList.tsx *)

Module CallList.

(** [GroupCallRoom], as far as the list reads it; a participant is a
    [RoomMember], here by its user id. *)
Record GroupCallRoom : Type := {
  room : Matrix.Room;
  roomAlias : string;
  roomName : string;
  avatarUrl : string;
  participants : list string
}.

(** A child of the list's [div]: a [CallTile] with its [key] and its
    props, or a spacer. *)
Inductive Element : Type :=
| CallTile (key : string) (client : nat) (name avatarUrl roomId : string)
           (participants : list string)
| CallTileSpacer.

Definition isSpacer (e : Element) : bool :=
  match e with CallTileSpacer => true | CallTile _ _ _ _ _ _ => false end.

Definition key (e : Element) : option string :=
  match e with CallTile k _ _ _ _ _ => Some k | CallTileSpacer => None end.

(** The children of the list's [div]; [client] is the [MatrixClient],
    by its identity. *)
Definition callList (rooms : list GroupCallRoom) (client : nat) : list Element :=
  (map (fun r =>
          CallTile (roomAlias r) client (roomName r) (avatarUrl r)
                   (Matrix.roomId (room r)) (participants r))
       rooms
   ++ (if (3 <? length rooms)%nat then [CallTileSpacer; CallTileSpacer] else []))%list.

End CallList.

(* ================================================================== *)
(** ** URLSearchParams: the text of one pair *)

Module URLSearchParamsText.

(** What [toString] writes for one pair. *)
Definition pairString (kv : string * string) : string :=
  URLSearchParams.encode (fst kv) ++ "=" ++ URLSearchParams.encode (snd kv).

End URLSearchParamsText.

(* ================================================================== *)
(** * Properties *)

(** ** Strings *)

Module JsFacts.
Import Js.

Lemma split_not_nil (sep : ascii) (s : string) : split sep s <> [].
Proof.
  induction s as [|c r IH]; simpl; [discriminate|].
  destruct (Ascii.eqb c sep); [discriminate|].
  destruct (split sep r); discriminate.
Qed.

Lemma pop_some {A : Type} (xs : list A) : xs <> [] -> exists x, pop xs = Some x.
Proof.
  induction xs as [|x r IH]; [congruence|]; intros _.
  destruct r as [|y r'].
  - exists x; reflexivity.
  - destruct IH as [z Hz]; [discriminate|].
    exists z. exact Hz.
Qed.

Lemma pop_cons {A : Type} (x y : A) (r : list A) : pop (x :: y :: r) = pop (y :: r).
Proof. reflexivity. Qed.

Lemma includes_char_cons (sep a : ascii) (s : string) :
  includes (String sep "") (String a s)
  = Ascii.eqb sep a || includes (String sep "") s.
Proof. simpl. rewrite andb_true_r. reflexivity. Qed.

Lemma includes_char_app (sep : ascii) (pre rest : string) :
  includes (String sep "") (pre ++ String sep rest) = true.
Proof.
  induction pre as [|a p IH].
  - simpl. rewrite Ascii.eqb_refl. reflexivity.
  - change (String a p ++ String sep rest) with (String a (p ++ String sep rest)).
    rewrite includes_char_cons, IH. apply orb_true_r.
Qed.

Lemma split_single (sep : ascii) (s y : string) :
  split sep s = [y] -> s = y /\ includes (String sep "") s = false.
Proof.
  revert y. induction s as [|a r IH]; intros y H.
  - simpl in H. injection H as <-. split; reflexivity.
  - simpl in H. pose proof (split_not_nil sep r) as Hne.
    destruct (Ascii.eqb a sep) eqn:E.
    + injection H as _ H. contradiction.
    + destruct (split sep r) as [|u l]; [contradiction|].
      injection H as <- ->.
      destruct (IH u eq_refl) as [-> Hno].
      split; [reflexivity|].
      rewrite includes_char_cons, Ascii.eqb_sym, E, Hno. reflexivity.
Qed.

(** The last element of [split] has no separator in it, and is the
    whole string or what follows its last separator. *)
Lemma pop_split_last (sep : ascii) (s : string) :
  exists seg,
    pop (split sep s) = Some seg
    /\ includes (String sep "") seg = false
    /\ (s = seg \/ exists pre, s = pre ++ String sep seg).
Proof.
  induction s as [|c r IH].
  - exists "". repeat split; auto.
  - destruct IH as (seg & Hpop & Hno & Hs).
    pose proof (split_not_nil sep r) as Hne.
    simpl. destruct (Ascii.eqb c sep) eqn:E.
    + apply Ascii.eqb_eq in E; subst c.
      destruct (split sep r) as [|y l]; [contradiction|].
      exists seg. rewrite pop_cons. repeat split; auto.
      right. destruct Hs as [->|[pre ->]].
      * exists "". reflexivity.
      * exists (String sep pre). reflexivity.
    + destruct (split sep r) as [|y l] eqn:Hsp; [contradiction|].
      destruct l as [|z l'].
      * destruct (split_single _ _ _ Hsp) as [-> Hnor].
        exists (String c y). repeat split.
        -- rewrite includes_char_cons, Ascii.eqb_sym, E, Hnor. reflexivity.
        -- left. reflexivity.
      * exists seg. rewrite pop_cons. rewrite pop_cons in Hpop.
        repeat split; auto.
        right. destruct Hs as [->|[pre ->]].
        -- exfalso. clear - Hsp Hno. revert y z l' Hsp.
           induction seg as [|a r' IHr]; intros y z l' Hsp.
           ++ discriminate.
           ++ rewrite includes_char_cons in Hno.
              apply orb_false_elim in Hno as [Ha Hno].
              simpl in Hsp. rewrite Ascii.eqb_sym, Ha in Hsp.
              destruct (split sep r') as [|u [|v l]] eqn:Hs'; try discriminate.
              eapply IHr; eauto.
        -- exists (String c pre). reflexivity.
Qed.

Lemma dropWhileChar_spec (c : ascii) (s : string) :
  exists n, s = rep c n ++ dropWhileChar c s
            /\ charAt0 (dropWhileChar c s) <> Some c.
Proof.
  induction s as [|a r IH]; simpl.
  - exists 0. split; [reflexivity|discriminate].
  - destruct (Ascii.eqb a c) eqn:E.
    + apply Ascii.eqb_eq in E; subst a.
      destruct IH as (n & Hn & Hc).
      exists (S n). simpl. split; [f_equal; exact Hn|exact Hc].
    + exists 0. split; [reflexivity|].
      simpl. intros H. injection H as ->.
      rewrite Ascii.eqb_refl in E. discriminate.
Qed.

Lemma includes_dropWhileChar (c d : ascii) (s : string) :
  Ascii.eqb d c = false ->
  includes (String d "") (dropWhileChar c s) = includes (String d "") s.
Proof.
  intros Hdc. induction s as [|a r IH]; [reflexivity|].
  simpl. destruct (Ascii.eqb a c) eqn:E.
  - apply Ascii.eqb_eq in E; subst a. rewrite Hdc. simpl. exact IH.
  - reflexivity.
Qed.

Lemma includes_replaceLeadingHashes (s : string) :
  includes ":" (replaceLeadingHashes s) = includes ":" s.
Proof.
  unfold replaceLeadingHashes.
  change (includes ":" (String "#" (dropWhileChar "#" s)))
    with (includes ":" (dropWhileChar "#" s)).
  apply includes_dropWhileChar. reflexivity.
Qed.

Lemma pop_split_snoc_sep (sep : ascii) (pre : string) :
  pop (split sep (pre ++ String sep "")) = Some "".
Proof.
  induction pre as [|a r IH].
  - simpl. rewrite Ascii.eqb_refl. reflexivity.
  - change (String a r ++ String sep "") with (String a (r ++ String sep "")).
    pose proof (split_not_nil sep (r ++ String sep "")) as Hne.
    simpl. destruct (Ascii.eqb a sep).
    + destruct (split sep (r ++ String sep "")) as [|y l]; [contradiction|].
      rewrite pop_cons. exact IH.
    + destruct (split sep (r ++ String sep "")) as [|y [|z l]] eqn:E.
      * contradiction.
      * apply split_single in E as [_ E].
        rewrite includes_char_app in E. discriminate.
      * rewrite pop_cons. rewrite pop_cons in IH. exact IH.
Qed.

End JsFacts.

(** ** The UTF-8 decoder *)

Module Utf8Facts.
Import URLSearchParams.

Lemma utf8From_start (b : ascii) (r seen : string) (lower upper : nat) :
  utf8From (String b r) seen 0 lower upper
  = match lead (nat_of_ascii b) with
    | LeadAscii => String b (utf8Decode r)
    | LeadOf k lo hi => utf8From r (String b "") k lo hi
    | LeadInvalid => replacement ++ utf8Decode r
    end.
Proof. reflexivity. Qed.

Lemma utf8Decode_replacement (r : string) :
  utf8Decode (replacement ++ r) = replacement ++ utf8Decode r.
Proof. reflexivity. Qed.

Lemma append_assoc (a b c : string) : (a ++ b) ++ c = a ++ (b ++ c).
Proof. induction a as [|x a IH]; simpl; [reflexivity|now rewrite IH]. Qed.

(** What the decoder gives is UTF-8: decoded again it stays as it is.
    [seen] is any state the decoder can be in: one it has come to from
    its start by reading [seen]. *)
Lemma utf8From_fixed (s : string) :
  forall (seen : string) (needed lower upper : nat),
    (needed <> 0 ->
     forall x, utf8Decode (seen ++ x) = utf8From x seen needed lower upper) ->
    utf8Decode (utf8From s seen needed lower upper)
    = utf8From s seen needed lower upper.
Proof.
  induction s as [|b r IH]; intros seen needed lower upper Hreach.
  - simpl. destruct (needed =? 0)%nat; reflexivity.
  - assert (Hinit : utf8Decode (utf8Decode r) = utf8Decode r).
    { apply IH. intros H. contradiction. }
    assert (Hstart :
              utf8Decode (utf8From (String b r) seen 0 lower upper)
              = utf8From (String b r) seen 0 lower upper).
    { rewrite utf8From_start.
      destruct (lead (nat_of_ascii b)) as [|k lo hi|] eqn:L.
      - unfold utf8Decode at 1. rewrite utf8From_start, L.
        rewrite Hinit. reflexivity.
      - apply IH. intros _ x.
        change (String b "" ++ x) with (String b x).
        unfold utf8Decode. rewrite utf8From_start, L. reflexivity.
      - rewrite utf8Decode_replacement, Hinit. reflexivity. }
    destruct needed as [|k]; [exact Hstart|].
    specialize (Hreach (Nat.neq_succ_0 k)).
    cbn [utf8From]. cbn [Nat.eqb].
    change (match lead (nat_of_ascii b) with
            | LeadAscii => String b (utf8From r "" 0 128 191)
            | LeadOf k0 lo hi => utf8From r (String b "") k0 lo hi
            | LeadInvalid => replacement ++ utf8From r "" 0 128 191
            end) with (utf8From (String b r) seen 0 lower upper).
    destruct ((lower <=? nat_of_ascii b) && (nat_of_ascii b <=? upper))%nat eqn:R.
    + destruct k as [|k'].
      * cbn [Nat.eqb].
        rewrite (Hreach (String b (utf8From r "" 0 128 191))).
        cbn [utf8From]. cbn [Nat.eqb]. rewrite R.
        fold (utf8Decode r). fold (utf8Decode (utf8Decode r)).
        rewrite Hinit. reflexivity.
      * cbn [Nat.eqb Nat.sub]. rewrite ?Nat.sub_0_r.
        apply IH. intros _ x.
        rewrite append_assoc. change (String b "" ++ x) with (String b x).
        rewrite (Hreach (String b x)).
        cbn [utf8From]. cbn [Nat.eqb]. rewrite R.
        cbn [Nat.sub]. rewrite ?Nat.sub_0_r. reflexivity.
    + rewrite utf8Decode_replacement, Hstart. reflexivity.
Qed.

Lemma utf8Decode_idempotent (s : string) :
  utf8Decode (utf8Decode s) = utf8Decode s.
Proof. apply utf8From_fixed. intros H. contradiction. Qed.

Lemma utf8Decode_ascii (s : string) :
  forallb (fun c => (nat_of_ascii c <=? 127)%nat) (list_ascii_of_string s) = true ->
  utf8Decode s = s.
Proof.
  induction s as [|c r IH]; [reflexivity|].
  simpl forallb. intros H. apply andb_true_iff in H as [Hc Hr].
  unfold utf8Decode. rewrite utf8From_start.
  unfold lead. rewrite Hc. rewrite (IH Hr). reflexivity.
Qed.

End Utf8Facts.

(** ** URLSearchParams *)

Module URLSearchParamsFacts.
Import URLSearchParams.

Lemma parseUrlencoded_empty : parseUrlencoded "" = [].
Proof. reflexivity. Qed.

Lemma has_get (name : string) (p : t) :
  has name p = match get name p with Some _ => true | None => false end.
Proof.
  induction p as [|[k v] r IH]; [reflexivity|].
  simpl. destruct (String.eqb k name); [reflexivity|exact IH].
Qed.

Lemma cut_app (c : ascii) (pre rest : string) :
  Js.includes (String c "") pre = false ->
  cut c (pre ++ String c rest) = (pre, Some rest).
Proof.
  induction pre as [|a p IH]; intros H.
  - simpl. rewrite Ascii.eqb_refl. reflexivity.
  - rewrite JsFacts.includes_char_cons in H.
    apply orb_false_elim in H as [Ha Hp].
    change (String a p ++ String c rest) with (String a (p ++ String c rest)).
    simpl. rewrite Ascii.eqb_sym, Ha, (IH Hp). reflexivity.
Qed.

Lemma cut_none (c : ascii) (s : string) :
  Js.includes (String c "") s = false -> cut c s = (s, None).
Proof.
  induction s as [|a p IH]; intros H; [reflexivity|].
  rewrite JsFacts.includes_char_cons in H.
  apply orb_false_elim in H as [Ha Hp].
  simpl. rewrite Ascii.eqb_sym, Ha, (IH Hp). reflexivity.
Qed.

Lemma plainChar_inv (c : ascii) :
  plainChar c = true ->
  (nat_of_ascii c <=? 127)%nat = true
  /\ Ascii.eqb c "&" = false /\ Ascii.eqb c "+" = false /\ Ascii.eqb c "%" = false.
Proof.
  unfold plainChar. rewrite andb_true_iff, negb_true_iff.
  intros [Ha H]. apply orb_false_elim in H as [H H3].
  apply orb_false_elim in H as [H1 H2]. auto.
Qed.

Lemma unescape_plain (v : string) :
  forallb plainChar (list_ascii_of_string v) = true ->
  percentDecode (plusToSpace v) = v.
Proof.
  induction v as [|c r IH]; [reflexivity|].
  simpl. intros H. apply andb_true_iff in H as [Hc Hr].
  destruct (plainChar_inv c Hc) as (_ & _ & Hplus & Hpct).
  rewrite Hplus, Hpct. f_equal. exact (IH Hr).
Qed.

Lemma decode_plain (v : string) :
  forallb plainChar (list_ascii_of_string v) = true -> decode v = v.
Proof.
  intros H. unfold decode. rewrite (unescape_plain v H).
  apply Utf8Facts.utf8Decode_ascii.
  rewrite forallb_forall in *. intros c Hc.
  exact (proj1 (plainChar_inv c (H c Hc))).
Qed.

Lemma includes_amp_plain (v : string) :
  forallb plainChar (list_ascii_of_string v) = true -> Js.includes "&" v = false.
Proof.
  induction v as [|c r IH]; [reflexivity|].
  simpl forallb. intros H. apply andb_true_iff in H as [Hc Hr].
  destruct (plainChar_inv c Hc) as (_ & Hamp & _ & _).
  rewrite JsFacts.includes_char_cons, Ascii.eqb_sym, Hamp. exact (IH Hr).
Qed.

Lemma split_no_sep (sep : ascii) (s : string) :
  Js.includes (String sep "") s = false -> Js.split sep s = [s].
Proof.
  induction s as [|a r IH]; [reflexivity|].
  rewrite JsFacts.includes_char_cons. intros H.
  apply orb_false_elim in H as [Ha Hr].
  simpl. rewrite Ascii.eqb_sym, Ha, (IH Hr). reflexivity.
Qed.

(** A query of one pair whose name has only letters and whose value is
    plain is parsed to that pair. *)
Lemma ofString_enableE2e (v : string) :
  forallb plainChar (list_ascii_of_string v) = true ->
  ofString ("?enableE2e=" ++ v) = [("enableE2e", v)].
Proof.
  intros H. change (ofString ("?enableE2e=" ++ v))
    with (parseUrlencoded ("enableE2e=" ++ v)).
  unfold parseUrlencoded. rewrite split_no_sep.
  - cbn [filter isEmpty negb append map]. unfold parsePair.
    simpl. rewrite (decode_plain v H). reflexivity.
  - change (Js.includes "&" ("enableE2e=" ++ v)) with (Js.includes "&" v).
    apply includes_amp_plain, H.
Qed.

End URLSearchParamsFacts.

(** ** src/UrlParams.ts *)

Module UrlParamsFacts.
Import UrlParams.

Lemma take_app_length (pre rest : string) :
  Js.take (String.length pre) (pre ++ rest) = pre.
Proof.
  induction pre as [|a p IH]; simpl.
  - destruct rest; reflexivity.
  - f_equal. exact IH.
Qed.

Lemma drop_app_length (pre rest : string) :
  Js.drop (String.length pre) (pre ++ rest) = rest.
Proof.
  induction pre as [|a p IH]; simpl; [reflexivity|exact IH].
Qed.

Lemma length_app (a b : string) :
  String.length (a ++ b) = String.length a + String.length b.
Proof. induction a as [|c a IH]; simpl; [reflexivity|now rewrite IH]. Qed.

Lemma indexOfFrom_char_none (c : ascii) (s : string) (i : Z) :
  Js.includes (String c "") s = false ->
  Js.indexOfFrom (String c "") s i = (-1)%Z.
Proof.
  revert i. induction s as [|a r IH]; intros i H; [reflexivity|].
  rewrite JsFacts.includes_char_cons in H.
  apply orb_false_elim in H as [Ha Hr].
  simpl. rewrite Ha. simpl. apply IH, Hr.
Qed.

Lemma indexOfFrom_char_found (c : ascii) (pre rest : string) (i : Z) :
  Js.includes (String c "") pre = false ->
  Js.indexOfFrom (String c "") (pre ++ String c rest) i
  = (i + Z.of_nat (String.length pre))%Z.
Proof.
  revert i. induction pre as [|a p IH]; intros i H.
  - simpl. rewrite Ascii.eqb_refl. simpl. lia.
  - rewrite JsFacts.includes_char_cons in H.
    apply orb_false_elim in H as [Ha Hp].
    change (String a p ++ String c rest) with (String a (p ++ String c rest)).
    simpl Js.indexOfFrom. rewrite Ha. simpl andb. cbv iota.
    rewrite (IH _ Hp). simpl String.length. lia.
Qed.

(** When the hash has a [?], the result is the part before the first
    one, a [?], and the edited parameters. *)
Lemma editFragmentQuery_with_query
    (pre rest : string) (edit : URLSearchParams.t -> URLSearchParams.t) :
  Js.includes "?" pre = false ->
  editFragmentQuery (pre ++ String "?" rest) edit
  = pre ++ "?" ++ URLSearchParams.toString
                    (edit (URLSearchParams.parseUrlencoded rest)).
Proof.
  intros H. unfold editFragmentQuery, Js.indexOf.
  rewrite (indexOfFrom_char_found "?" pre rest 0 H).
  replace (0 + Z.of_nat (String.length pre) =? -1)%Z with false
    by (symmetry; apply Z.eqb_neq; lia).
  unfold Js.substringFrom, Js.substring, Js.clamp.
  rewrite Z.add_0_l, Nat2Z.id, length_app.
  replace (Nat.min (String.length pre)
             (String.length pre + String.length (String "?" rest)))
    with (String.length pre) by lia.
  rewrite drop_app_length.
  simpl Z.to_nat. rewrite Nat.min_0_l, Nat.max_0_l, Nat.min_0_l, Nat.sub_0_r.
  simpl Js.drop at 1. rewrite take_app_length.
  reflexivity.
Qed.

(** When the hash has no [?], the result is a [?] and the edited empty
    parameters: nothing of the hash is left. *)
Lemma editFragmentQuery_without_query
    (hash : string) (edit : URLSearchParams.t -> URLSearchParams.t) :
  Js.includes "?" hash = false ->
  editFragmentQuery hash edit = "?" ++ URLSearchParams.toString (edit []).
Proof.
  intros H. unfold editFragmentQuery, Js.indexOf.
  rewrite (indexOfFrom_char_none "?" hash 0 H).
  simpl Z.eqb. cbv iota.
  unfold Js.substring, Js.clamp. simpl Z.to_nat.
  rewrite !Nat.min_0_l, Nat.max_0_l. simpl.
  destruct hash; reflexivity.
Qed.

(** The specification's helper agrees with the source on every hash
    that has a [?]. *)
Lemma editFragmentQuery_spec_with_query
    (pre rest : string) (edit : URLSearchParams.t -> URLSearchParams.t) :
  Js.includes "?" pre = false ->
  editFragmentQuery (pre ++ String "?" rest) edit
  = Spec.editFragmentQuery (pre ++ String "?" rest) edit.
Proof.
  intros H. rewrite (editFragmentQuery_with_query _ _ _ H).
  unfold Spec.editFragmentQuery, Spec.hashPrefix, Spec.embeddedQuery.
  rewrite (URLSearchParamsFacts.cut_app "?" pre rest H). reflexivity.
Qed.

(** C8. [editFragmentQuery] does not return the original hash's prefix
    when the hash has no [?]: on ["#room"] with the identity edit it
    returns ["?"], where the portion before the [?] is to stay and the
    result to be ["#room?"]. *)
Theorem editFragmentQuery_drops_hash_without_query :
  editFragmentQuery "#room" (fun params => params) = "?"
  /\ Spec.editFragmentQuery "#room" (fun params => params) = "#room?"
  /\ Spec.hashPrefix "#room" = "#room"
  /\ Js.substring "#room" 0 (Js.indexOf "?" "#room") = "".
Proof. repeat split; reflexivity. Qed.

(** *** The parameters of a hash *)

Lemma includes_char_split (c : ascii) (s : string) :
  Js.includes (String c "") s = true ->
  exists pre rest, s = pre ++ String c rest
                   /\ Js.includes (String c "") pre = false.
Proof.
  induction s as [|a r IH]; [discriminate|].
  rewrite JsFacts.includes_char_cons.
  destruct (Ascii.eqb c a) eqn:E.
  - intros _. apply Ascii.eqb_eq in E; subst a.
    exists "", r. split; reflexivity.
  - simpl. intros H. destruct (IH H) as (pre & rest & -> & Hpre).
    exists (String a pre), rest. split; [reflexivity|].
    rewrite JsFacts.includes_char_cons, E, Hpre. reflexivity.
Qed.

Lemma fragmentParams_with_query (search pre rest : string) :
  Js.includes "?" pre = false ->
  fragmentParams (newParamParser search (pre ++ String "?" rest))
  = URLSearchParams.parseUrlencoded rest.
Proof.
  intros H. unfold newParamParser, Js.indexOf. cbn [fragmentParams].
  rewrite (indexOfFrom_char_found "?" pre rest 0 H).
  replace (0 + Z.of_nat (String.length pre) =? -1)%Z with false
    by (symmetry; apply Z.eqb_neq; lia).
  unfold Js.substringFrom, Js.clamp.
  rewrite Z.add_0_l, Nat2Z.id, length_app.
  replace (Nat.min (String.length pre)
             (String.length pre + String.length (String "?" rest)))
    with (String.length pre) by lia.
  rewrite drop_app_length. reflexivity.
Qed.

Lemma fragmentParams_without_query (search hash : string) :
  Js.includes "?" hash = false ->
  fragmentParams (newParamParser search hash) = [].
Proof.
  intros H. unfold newParamParser, Js.indexOf. cbn [fragmentParams].
  rewrite (indexOfFrom_char_none "?" hash 0 H). reflexivity.
Qed.

(** The source finds the embedded query of the hash as the
    specification describes it. *)
Lemma fragmentParams_embeddedQuery (search hash : string) :
  fragmentParams (newParamParser search hash)
  = URLSearchParams.parseUrlencoded (Spec.embeddedQuery hash).
Proof.
  unfold Spec.embeddedQuery.
  destruct (Js.includes "?" hash) eqn:E.
  - destruct (includes_char_split "?" hash E) as (pre & rest & -> & Hpre).
    rewrite (fragmentParams_with_query search pre rest Hpre).
    rewrite (URLSearchParamsFacts.cut_app "?" pre rest Hpre). reflexivity.
  - rewrite (fragmentParams_without_query search hash E).
    rewrite (URLSearchParamsFacts.cut_none "?" hash E). reflexivity.
Qed.

Lemma getParam_urlParam (search hash name : string) :
  getParam (newParamParser search hash) name = Spec.urlParam name search hash.
Proof.
  unfold getParam, Spec.urlParam, nullish.
  rewrite fragmentParams_embeddedQuery. reflexivity.
Qed.

(** *** Launch parameters *)

Lemma notFalseLiteral_false (x : option string) :
  notFalseLiteral x = false <-> x = Some "false".
Proof.
  destruct x as [v|]; simpl.
  - rewrite negb_false_iff, String.eqb_eq. split; congruence.
  - split; discriminate.
Qed.

(** The parameter is absent when neither query has a pair under its
    name. *)
Lemma getParam_absent (search hash name : string) :
  getParam (newParamParser search hash) name = None
  <-> hasParam (newParamParser search hash) name = false.
Proof.
  unfold getParam, hasParam, nullish.
  rewrite !URLSearchParamsFacts.has_get.
  destruct (URLSearchParams.get name (fragmentParams _));
    destruct (URLSearchParams.get name (queryParams _)); simpl;
    split; congruence.
Qed.

(** With [enableE2e=<v>] as the query of the hash, for a plain [v], the
    flag is off exactly for [v = "false"]. *)
Lemma e2eEnabled_of_hash_value
    {Number : Type} (parseFloat : string -> option Number) (search v : string) :
  forallb URLSearchParams.plainChar (list_ascii_of_string v) = true ->
  e2eEnabled (getUrlParams parseFloat search ("#?enableE2e=" ++ v))
  = negb (String.eqb v "false").
Proof.
  intros H. unfold getUrlParams. cbn [e2eEnabled].
  unfold getParam, newParamParser. cbn [fragmentParams queryParams].
  change (Js.indexOf "?" ("#?enableE2e=" ++ v)) with 1%Z.
  cbn [Z.eqb Pos.eqb].
  change (Js.substringFrom ("#?enableE2e=" ++ v) 1) with ("?enableE2e=" ++ v).
  rewrite (URLSearchParamsFacts.ofString_enableE2e v H).
  reflexivity.
Qed.

(** The same in the page's query, for a hash with no query of its own. *)
Lemma e2eEnabled_of_query_value
    {Number : Type} (parseFloat : string -> option Number) (hash v : string) :
  Js.includes "?" hash = false ->
  forallb URLSearchParams.plainChar (list_ascii_of_string v) = true ->
  e2eEnabled (getUrlParams parseFloat ("?enableE2e=" ++ v) hash)
  = negb (String.eqb v "false").
Proof.
  intros Hh H. unfold getUrlParams. cbn [e2eEnabled].
  unfold getParam. rewrite (fragmentParams_without_query _ hash Hh).
  unfold newParamParser. cbn [queryParams].
  rewrite (URLSearchParamsFacts.ofString_enableE2e v H). reflexivity.
Qed.

(** C4. [getUrlParams] returns [e2eEnabled = false] exactly when the
    [enableE2e] parameter of the URL (its first value in the query
    embedded in the hash, else its first value in the page's query) is
    the string ["false"], and [true] when the parameter is absent or
    has any other value.  So [enableE2e=<v>], in the hash or in the
    page's query, gives [false] for [v = false] and [true] for every
    other plain [v], and a URL with no query at all gives [true]. *)
Theorem getUrlParams_e2eEnabled
    {Number : Type} (parseFloat : string -> option Number)
    (search hash : string) :
  let value := Spec.urlParam "enableE2e" search hash in
  (e2eEnabled (getUrlParams parseFloat search hash) = false
     <-> value = Some "false")
  /\ (e2eEnabled (getUrlParams parseFloat search hash) = true
     <-> (value = None \/ exists v, value = Some v /\ v <> "false"))
  /\ (forall v,
        forallb URLSearchParams.plainChar (list_ascii_of_string v) = true ->
        e2eEnabled (getUrlParams parseFloat search ("#?enableE2e=" ++ v))
        = negb (String.eqb v "false"))
  /\ (forall v,
        Js.includes "?" hash = false ->
        forallb URLSearchParams.plainChar (list_ascii_of_string v) = true ->
        e2eEnabled (getUrlParams parseFloat ("?enableE2e=" ++ v) hash)
        = negb (String.eqb v "false"))
  /\ (Js.includes "?" hash = false ->
      e2eEnabled (getUrlParams parseFloat "" hash) = true).
Proof.
  intros value.
  assert (He : e2eEnabled (getUrlParams parseFloat search hash)
               = notFalseLiteral value).
  { unfold getUrlParams. cbn [e2eEnabled].
    rewrite getParam_urlParam. reflexivity. }
  rewrite He. split; [|split; [|split; [|split]]].
  - apply notFalseLiteral_false.
  - destruct value as [v|]; simpl.
    + rewrite negb_true_iff, String.eqb_neq. split.
      * intros H. right. exists v. split; [reflexivity|exact H].
      * intros [H|[v' [H Hv]]]; [discriminate|]. injection H as <-. exact Hv.
    + split; auto.
  - intros v Hv. apply e2eEnabled_of_hash_value, Hv.
  - intros v Hh Hv. apply e2eEnabled_of_query_value; assumption.
  - intros Hh. unfold getUrlParams. cbn [e2eEnabled].
    unfold getParam. rewrite (fragmentParams_without_query _ hash Hh).
    reflexivity.
Qed.

Example e2eEnabled_absent :
  e2eEnabled (getUrlParams (fun _ => @None nat) "" "#?embed") = true.
Proof. reflexivity. Qed.

Example e2eEnabled_false :
  e2eEnabled (getUrlParams (fun _ => @None nat) "" "#/room?enableE2e=false") = false.
Proof. reflexivity. Qed.

Example e2eEnabled_other :
  e2eEnabled (getUrlParams (fun _ => @None nat) "" "#?enableE2e=FALSE") = true.
Proof. reflexivity. Qed.

Example e2eEnabled_hash_first :
  e2eEnabled (getUrlParams (fun _ => @None nat)
                "?enableE2e=false" "#?enableE2e=0") = true.
Proof. reflexivity. Qed.

Example e2eEnabled_encoded :
  e2eEnabled (getUrlParams (fun _ => @None nat) "?enableE2e=%66alse" "") = false.
Proof. reflexivity. Qed.

(** *** Room identifier *)

Lemma baseRoomString_path (pathname hash : string) :
  hash = "" \/ Js.startsWith "#?" hash = true ->
  baseRoomString pathname hash = Js.pop (Js.split "/" pathname).
Proof.
  intros H. unfold baseRoomString.
  destruct H as [->|H]; [reflexivity|].
  rewrite H, orb_true_r. reflexivity.
Qed.

Lemma baseRoomString_some (pathname hash : string) :
  exists base, baseRoomString pathname hash = Some base.
Proof.
  unfold baseRoomString.
  destruct (String.eqb hash "" || Js.startsWith "#?" hash).
  - apply JsFacts.pop_some, JsFacts.split_not_nil.
  - exists hash. reflexivity.
Qed.

Lemma roomAlias_of_base (defaultServerName pathname search hash base : string) :
  baseRoomString pathname hash = Some base ->
  RoomIdentifier.roomAlias
    (getRoomIdentifierFromUrl defaultServerName pathname search hash)
  = Some (if Js.includes ":" base
          then String "#" (Js.dropWhileChar "#" base)
          else String "#" (Js.dropWhileChar "#" base) ++ ":" ++ defaultServerName).
Proof.
  intros H. unfold getRoomIdentifierFromUrl.
  cbn [RoomIdentifier.roomAlias]. rewrite H.
  rewrite JsFacts.includes_replaceLeadingHashes.
  destruct (Js.includes ":" base); reflexivity.
Qed.

(** C5. When the hash is empty or begins with [#?], the alias
    candidate is the last [/]-delimited segment of the path; the alias
    is [#] followed by the candidate without its leading [#]s, so it
    starts with exactly one [#]; and [:] with the default server name
    is appended exactly when the candidate has no [:].  Thus [/#foo]
    gives [#foo:<default server name>] and [/#foo:example.org] gives
    [#foo:example.org]. *)
Theorem getRoomIdentifierFromUrl_alias_of_path
    (defaultServerName pathname search hash : string) :
  hash = "" \/ Js.startsWith "#?" hash = true ->
  (exists (candidate rest : string) (n : nat),
      Js.includes "/" candidate = false
      /\ (pathname = candidate \/ exists pre, pathname = pre ++ "/" ++ candidate)
      /\ candidate = Js.rep "#" n ++ rest
      /\ Js.charAt0 rest <> Some "#"%char
      /\ RoomIdentifier.roomAlias
           (getRoomIdentifierFromUrl defaultServerName pathname search hash)
         = Some (if Js.includes ":" candidate
                 then "#" ++ rest
                 else "#" ++ rest ++ ":" ++ defaultServerName))
  /\ RoomIdentifier.roomAlias
       (getRoomIdentifierFromUrl defaultServerName "/#foo" search hash)
     = Some ("#foo:" ++ defaultServerName)
  /\ RoomIdentifier.roomAlias
       (getRoomIdentifierFromUrl defaultServerName "/#foo:example.org" search hash)
     = Some "#foo:example.org".
Proof.
  intros H. split; [|split].
  - destruct (JsFacts.pop_split_last "/" pathname) as (candidate & Hpop & Hno & Hs).
    destruct (JsFacts.dropWhileChar_spec "#" candidate) as (n & Hn & Hc).
    exists candidate, (Js.dropWhileChar "#" candidate), n.
    repeat split; auto.
    apply roomAlias_of_base. rewrite (baseRoomString_path _ _ H). exact Hpop.
  - rewrite (roomAlias_of_base _ _ _ _ "#foo"); [reflexivity|].
    rewrite (baseRoomString_path _ _ H). reflexivity.
  - rewrite (roomAlias_of_base _ _ _ _ "#foo:example.org"); [reflexivity|].
    rewrite (baseRoomString_path _ _ H). reflexivity.
Qed.

Lemma getRoomIdentifierFromUrl_alias_of_path_witness :
  RoomIdentifier.roomAlias
    (getRoomIdentifierFromUrl "call.example.org" "/#foo" "" "#?embed")
  = Some "#foo:call.example.org".
Proof.
  apply (getRoomIdentifierFromUrl_alias_of_path
           "call.example.org" "/room" "" "#?embed").
  right. reflexivity.
Defined.

(** C10. For every path, query and hash the room alias is present and
    begins with [#]: splitting the path on [/] gives at least one
    segment, so there is always a candidate; and an empty candidate
    (a path ending in [/], with no hash) gives [#:] followed by the
    default server name. *)
Theorem getRoomIdentifierFromUrl_alias_present
    (defaultServerName pathname search hash : string) :
  (exists rest,
      RoomIdentifier.roomAlias
        (getRoomIdentifierFromUrl defaultServerName pathname search hash)
      = Some (String "#" rest))
  /\ Js.split "/" pathname <> []
  /\ baseRoomString pathname hash <> None
  /\ (forall pre,
        RoomIdentifier.roomAlias
          (getRoomIdentifierFromUrl defaultServerName (pre ++ "/") search "")
        = Some ("#:" ++ defaultServerName)).
Proof.
  destruct (baseRoomString_some pathname hash) as [base Hb].
  repeat split.
  - rewrite (roomAlias_of_base _ _ _ _ _ Hb).
    destruct (Js.includes ":" base); eexists; reflexivity.
  - apply JsFacts.split_not_nil.
  - congruence.
  - intros pre. rewrite (roomAlias_of_base _ _ _ _ "").
    + reflexivity.
    + rewrite baseRoomString_path by (left; reflexivity).
      apply JsFacts.pop_split_snoc_sep.
Qed.

End UrlParamsFacts.

(** ** src/room/GroupCallView.tsx *)

Module GroupCallViewFacts.
Import Matrix GroupCallView.

(** C1. When encryption is enabled in the app, the room is encrypted
    and there is no shared key, [GroupCallView] returns the error view
    with the "No E2EE key provided" message, whatever the join state,
    [left], [preload] and everything else it reads. *)
Theorem render_no_key_error (p : Props) (r : Reads) :
  Js.truthy (e2eeEnabled r) = true ->
  Js.truthy (isRoomE2EE r) = true ->
  Js.truthyStr (e2eeSharedKey r) = false ->
  render p r = ErrorView noKeyMessage.
Proof.
  intros He Hr Hk. unfold render. rewrite He, Hr, Hk. reflexivity.
Qed.

Lemma render_no_key_error_witness :
  render Examples.joinedProps Examples.joinedNoKey = ErrorView noKeyMessage.
Proof.
  apply (render_no_key_error Examples.joinedProps Examples.joinedNoKey);
    reflexivity.
Defined.

(** Without the three conditions the same inputs give the call. *)
Example render_joined_with_key :
  render Examples.joinedProps Examples.joinedWithKey
  = ActiveCallView (Some "secret") false.
Proof. reflexivity. Qed.

Section WithAnalytics.

Variable Analytics : Type.
Variable track : string -> nat -> bool -> Analytics -> Analytics.
Variable logout : Analytics -> Analytics.
Variable isEnabled : Analytics -> bool.

(** What [onLeave] does in a widget, with the times. *)
Lemma onLeave_widget_effects
    (p : Props) (lag : nat) (e : option MatrixError) (s : St Analytics) :
  let roomId := roomId (room (rtcSession p)) in
  let n := length (memberships (rtcSession p)) in
  let t0 := clock s in
  let t1 := t0 + 10 + lag in
  let a := logout (track roomId n true (analytics s)) in
  onLeave track logout isEnabled p true lag e s
  = ({| st_left := true; st_leaveError := e; analytics := a; clock := t1 |},
     ([(t0, SetLeaveError e); (t0, SetLeft true);
       (t0, TrackCallEnded roomId n true); (t0, LeaveRTCSession roomId);
       (t1, SetAlwaysOnScreen false); (t1, AnalyticsLogout);
       (t1, SendHangupCall)]
      ++ (if goesHome isEnabled p a then [(t1, HistoryPush "/")] else []))%list).
Proof.
  destruct s as [l le a c]. unfold onLeave.
  cbn. destruct (goesHome isEnabled p _); reflexivity.
Qed.

Lemma onLeave_page_effects
    (p : Props) (lag : nat) (e : option MatrixError) (s : St Analytics) :
  let roomId := roomId (room (rtcSession p)) in
  let n := length (memberships (rtcSession p)) in
  let t0 := clock s in
  let a := track roomId n false (analytics s) in
  onLeave track logout isEnabled p false lag e s
  = ({| st_left := true; st_leaveError := e; analytics := a; clock := t0 |},
     ([(t0, SetLeaveError e); (t0, SetLeft true);
       (t0, TrackCallEnded roomId n false); (t0, LeaveRTCSession roomId)]
      ++ (if goesHome isEnabled p a then [(t0, HistoryPush "/")] else []))%list).
Proof.
  destruct s as [l le a c]. unfold onLeave.
  cbn. destruct (goesHome isEnabled p _); reflexivity.
Qed.

(** C3 (as the source has it). In a widget [onLeave] has these
    effects, in this order: the leave error is recorded and the state
    set to left, the call-ended event is tracked, the session is left;
    then, at least 10 ms later, "always on screen" is cleared,
    analytics is logged out and the hangup is sent to the host.  The
    hangup is the last effect exactly when the user is passwordless, or
    the app is confined to the room, or analytics is still enabled
    after the logout; otherwise one more effect follows it, at the same
    time: the push of ["/"] on the history. *)
Theorem onLeave_widget_order
    (p : Props) (lag : nat) (e : option MatrixError) (s : St Analytics) :
  let result := onLeave track logout isEnabled p true lag e s in
  let roomId := roomId (room (rtcSession p)) in
  let n := length (memberships (rtcSession p)) in
  let t0 := clock s in
  let t1 := clock (fst result) in
  let home :=
    negb (isPasswordlessUser p) && negb (confineToRoom p)
    && negb (isEnabled (analytics (fst result))) in
  t0 + 10 <= t1
  /\ st_left (fst result) = true
  /\ st_leaveError (fst result) = e
  /\ snd result
     = ([(t0, SetLeaveError e); (t0, SetLeft true);
         (t0, TrackCallEnded roomId n true); (t0, LeaveRTCSession roomId);
         (t1, SetAlwaysOnScreen false); (t1, AnalyticsLogout);
         (t1, SendHangupCall)]
        ++ (if home then [(t1, HistoryPush "/")] else []))%list
  /\ map snd (snd result)
     = (Spec.widgetLeaveOrder roomId n e
        ++ (if home then [HistoryPush "/"] else []))%list
  /\ (map snd (snd result) = Spec.widgetLeaveOrder roomId n e <-> home = false)
  /\ (last (map snd (snd result)) SendHangupCall = SendHangupCall
      <-> home = false).
Proof.
  cbv zeta. rewrite onLeave_widget_effects. cbn [fst snd clock st_left
    st_leaveError analytics].
  fold (goesHome isEnabled p
          (logout (track (roomId (room (rtcSession p)))
                     (length (memberships (rtcSession p))) true (analytics s)))).
  destruct (goesHome isEnabled p _).
  - repeat split; try reflexivity; try lia; try discriminate.
  - repeat split; try reflexivity; try lia.
Qed.

(** C9 (as the source has it). [onLeave] pushes ["/"] on the history
    exactly when the user is not a passwordless user, the app is not
    confined to the room and analytics is not enabled; whether the
    app is embedded plays no part. *)
Theorem onLeave_navigates_home
    (p : Props) (widget : bool) (lag : nat)
    (e : option MatrixError) (s : St Analytics) :
  let result := onLeave track logout isEnabled p widget lag e s in
  let home :=
    negb (isPasswordlessUser p) && negb (confineToRoom p)
    && negb (isEnabled (analytics (fst result))) in
  navigated result = home
  /\ filter (fun te => isHistoryPush (snd te)) (snd result)
     = (if home then [(clock (fst result), HistoryPush "/")] else []).
Proof.
  cbv zeta. fold (goesHome isEnabled p (analytics (fst
    (onLeave track logout isEnabled p widget lag e s)))).
  unfold navigated.
  destruct widget.
  - rewrite onLeave_widget_effects. cbn [fst snd analytics clock].
    destruct (goesHome isEnabled p _); split; reflexivity.
  - rewrite onLeave_page_effects. cbn [fst snd analytics clock].
    destruct (goesHome isEnabled p _); split; reflexivity.
Qed.

End WithAnalytics.

(** C3 (as stated) fails: when a registered user leaves a call in a
    widget, not confined to the room and with analytics off, the hangup
    is not the last effect: the push of ["/"] on the history follows
    it. *)
Lemma onLeave_widget_hangup_not_last :
  let effects :=
    map snd (snd (onLeave Examples.track Examples.logout Examples.isEnabled
                    Examples.joinedProps true 0 None Examples.analyticsOff)) in
  effects <> Spec.widgetLeaveOrder "!abc:example.org" 0 None
  /\ effects
     = (Spec.widgetLeaveOrder "!abc:example.org" 0 None ++ [HistoryPush "/"])%list
  /\ last effects SendHangupCall = HistoryPush "/".
Proof. repeat split; try reflexivity. discriminate. Qed.

(** C9 (as stated) fails: a passwordless user who leaves a call in the
    page (not embedded), not confined to the room and with analytics
    off, is not sent home; and a registered user who leaves in a
    widget, not confined and with analytics off, is. *)
Lemma onLeave_navigates_home_not_by_embedding :
  (navigated (onLeave Examples.track Examples.logout Examples.isEnabled
                Examples.guestProps false 0 None Examples.analyticsOff) = false
   /\ Spec.navigatesHome false (confineToRoom Examples.guestProps) false = true)
  /\ (navigated (onLeave Examples.track Examples.logout Examples.isEnabled
                   Examples.joinedProps true 0 None Examples.analyticsOff) = true
      /\ Spec.navigatesHome true (confineToRoom Examples.joinedProps) false = false).
Proof. repeat split; reflexivity. Qed.

End GroupCallViewFacts.

(** ** src/room/useActiveFocus.ts *)

Module ActiveFocusFacts.
Import Matrix ActiveFocus.

Lemma focusEqb_eq (a b : LivekitFocus) : focusEqb a b = true <-> a = b.
Proof.
  destruct a as [t1 u1 a1], b as [t2 u2 a2]. unfold focusEqb; simpl.
  rewrite !andb_true_iff, !String.eqb_eq. split.
  - intros [[-> ->] ->]. reflexivity.
  - intros H. injection H as -> -> ->. auto.
Qed.

(** [deepCompare] holds of two foci exactly when they are the same
    value. *)
Lemma deepCompare_eq (x y : option LivekitFocus) :
  deepCompare x y = true <-> x = y.
Proof.
  destruct x as [a|], y as [b|]; simpl.
  - rewrite focusEqb_eq. split; congruence.
  - split; discriminate.
  - split; discriminate.
  - split; reflexivity.
Qed.

Lemma deepCompare_neq (x y : option LivekitFocus) :
  deepCompare x y = false <-> x <> y.
Proof.
  rewrite <- deepCompare_eq. destruct (deepCompare x y); split;
    congruence.
Qed.

(** The focus is the first one of the oldest membership. *)
Lemma getActiveFocus_oldest_first (rtcSession : MatrixRTCSession) :
  fst (getActiveFocus rtcSession)
  = match memberships rtcSession with
    | oldest :: _ => hd_error (activeFoci oldest)
    | [] => None
    end.
Proof.
  unfold getActiveFocus, getOldestMembership.
  destruct (memberships rtcSession); reflexivity.
Qed.



End ActiveFocusFacts.

(** ** src/room/useLoadGroupCall.ts *)

Module LoadGroupCallFacts.
Import Matrix LoadGroupCall.

Lemma quiet_not_create (evs : list Event) :
  forallb quiet evs = true -> filter isCreateRoom evs = [].
Proof.
  induction evs as [|e r IH]; [reflexivity|].
  simpl. intros H. apply andb_true_iff in H as [He Hr].
  destruct e; simpl in *; try discriminate; auto.
Qed.

Lemma quiet_not_write (evs : list Event) :
  forallb quiet evs = true -> filter isSetLocalStorageItem evs = [].
Proof.
  induction evs as [|e r IH]; [reflexivity|].
  simpl. intros H. apply andb_true_iff in H as [He Hr].
  destruct e; simpl in *; try discriminate; auto.
Qed.

Lemma quiet_not_setState (evs : list Event) (s : GroupCallStatus) :
  forallb quiet evs = true -> ~ In (ESetState s) evs.
Proof.
  intros H Hin. rewrite forallb_forall in H.
  specialize (H _ Hin). discriminate.
Qed.

Section WithEnv.

Context {World : Type}.
Variable env : Env World.

Lemma randomStringFrom_length (len : nat) (w : World) :
  String.length (fst (randomStringFrom env len w)) = len.
Proof.
  revert w. induction len as [|n IH]; intros w; [reflexivity|].
  simpl. destruct (randomIndex env 62 w) as [i w1].
  specialize (IH w1).
  destruct (randomStringFrom env n w1) as [r w2].
  simpl in *. now rewrite IH.
Qed.

(** Waiting for the client only logs. *)
Lemma waitForClientSyncing_quiet (st st' : St World) (r : Settled unit) :
  waitForClientSyncing env st = (r, st') ->
  exists evs, trace st' = (trace st ++ evs)%list
              /\ forallb quiet evs = true
              /\ localStorage st' = localStorage st.
Proof.
  unfold waitForClientSyncing.
  destruct (isSyncing _).
  - intros H; injection H as <- <-. exists []. rewrite app_nil_r. auto.
  - destruct (find _ _); intros H; injection H as <- <-; simpl.
    + eexists. rewrite <- app_assoc. repeat split; reflexivity.
    + eexists. repeat split; reflexivity.
Qed.

(** The [try] block joins, waits and logs; it creates no room. *)
Lemma joinAttempt_quiet (d : Deps) (st st' : St World) (r : Settled (option Room)) :
  joinAttempt env d st = (r, st') ->
  exists evs, trace st' = (trace st ++ evs)%list
              /\ forallb quiet evs = true
              /\ localStorage st' = localStorage st.
Proof.
  unfold joinAttempt, bind, call, emit, ret. simpl.
  destruct (joinRoom env _ _ _) as [[room|e|] w1]; simpl.
  - destruct (waitUntilRoomReadyForGroupCalls env _ _) as [[[]|e|] w2];
      simpl; intros H; injection H as <- <-; simpl;
      eexists; rewrite <- ?app_assoc; repeat split; reflexivity.
  - intros H; injection H as <- <-; simpl.
    eexists; repeat split; reflexivity.
  - intros H; injection H as <- <-; simpl.
    eexists; repeat split; reflexivity.
Qed.

Lemma randomStringFrom_alphabet (len : nat) (w : World) :
  Forall (fun c => In c alphabet)
    (list_ascii_of_string (fst (randomStringFrom env len w))).
Proof.
  revert w. induction len as [|n IH]; intros w; [constructor|].
  cbn [randomStringFrom]. destruct (randomIndex env 62 w) as [i w1].
  specialize (IH w1).
  destruct (randomStringFrom env n w1) as [r w2].
  unfold fst in *.
  change (list_ascii_of_string (String ?c r)) with (c :: list_ascii_of_string r).
  constructor; [|exact IH].
  apply nth_In. change (length alphabet) with 62.
  apply Nat.mod_upper_bound. discriminate.
Qed.

(** The run once [createRoom] has resolved: the key is drawn and written
    right after the creation when encryption is enabled, and nothing
    later creates a room or writes to local storage. *)
Lemma effect_created
    (d : Deps) (st st1 st2 : St World) (error : MatrixError)
    (alias roomId : string) (w' : World) :
  waitForClientSyncing env st = (Resolved tt, st1) ->
  joinAttempt env d st1 = (Rejected error, st2) ->
  qualifies env d error = true ->
  createRoom env (roomNameFromRoomId env (roomIdOrAlias d)) (createPtt d)
    (orFalse (e2eeEnabled d)) (world st2) = (Resolved (alias, roomId), w') ->
  let final := snd (effect env d st) in
  let storageKey := getRoomSharedKeyLocalStorageKey env roomId in
  let key := fst (randomStringFrom env 32 w') in
  exists rest,
    trace final
    = (trace st2
       ++ ECreateRoom (roomNameFromRoomId env (roomIdOrAlias d)) (createPtt d)
            (orFalse (e2eeEnabled d))
       :: (if Js.truthy (e2eeEnabled d)
           then [ESetLocalStorageItem storageKey key] else [])
       ++ EWaitUntilRoomReady roomId :: rest)%list
    /\ forallb (fun e => negb (isCreateRoom e || isSetLocalStorageItem e)) rest = true
    /\ localStorage final
       = ((if Js.truthy (e2eeEnabled d) then [(storageKey, key)] else [])
          ++ localStorage st)%list.
Proof.
  intros Hw Hj Hq Hc final storageKey key. subst final storageKey key.
  destruct (waitForClientSyncing_quiet _ _ _ Hw) as (_ & _ & _ & S1).
  destruct (joinAttempt_quiet _ _ _ _ Hj) as (_ & _ & _ & S2).
  unfold effect, loadChain, bind. rewrite Hw.
  unfold fetchOrCreateGroupCall, bind, fetchOrCreateRoom, tryCatch.
  rewrite Hj, Hq. unfold createAttempt, bind, call. rewrite Hc.
  cbn [snd].
  destruct (Js.truthy (e2eeEnabled d)) eqn:He.
  - unfold randomString, setLocalStorageItem. cbn [world localStorage trace].
    destruct (randomStringFrom env 32 w') as [key w2]. cbn [fst].
    cbn.
    destruct (waitUntilRoomReadyForGroupCalls env roomId w2) as [[[]|e2|] w3].
    + unfold getRoomNow, emit. cbn.
      destruct (getRoomSession env (getRoom env roomId w3) w3) as [[s|e3|] w4];
        cbn; rewrite <- ?app_assoc, S2, S1; cbn;
        eexists; (split; [reflexivity|]); split; reflexivity.
    + cbn; rewrite <- ?app_assoc, S2, S1; cbn;
        eexists; (split; [reflexivity|]); split; reflexivity.
    + cbn; rewrite <- ?app_assoc, S2, S1; cbn;
        eexists; (split; [reflexivity|]); split; reflexivity.
  - unfold ret. cbn.
    destruct (waitUntilRoomReadyForGroupCalls env roomId w') as [[[]|e2|] w3].
    + unfold getRoomNow, emit. cbn.
      destruct (getRoomSession env (getRoom env roomId w3) w3) as [[s|e3|] w4];
        cbn; rewrite <- ?app_assoc, S2, S1; cbn;
        eexists; (split; [reflexivity|]); split; reflexivity.
    + cbn; rewrite <- ?app_assoc, S2, S1; cbn;
        eexists; (split; [reflexivity|]); split; reflexivity.
    + cbn; rewrite <- ?app_assoc, S2, S1; cbn;
        eexists; (split; [reflexivity|]); split; reflexivity.
Qed.

(** The run when [createRoom] does not resolve: nothing follows the
    creation but the report of its failure, if it has failed. *)
Lemma effect_not_created
    (d : Deps) (st st1 st2 : St World) (error : MatrixError) :
  waitForClientSyncing env st = (Resolved tt, st1) ->
  joinAttempt env d st1 = (Rejected error, st2) ->
  qualifies env d error = true ->
  (forall created w',
      createRoom env (roomNameFromRoomId env (roomIdOrAlias d)) (createPtt d)
        (orFalse (e2eeEnabled d)) (world st2) <> (Resolved created, w')) ->
  let final := snd (effect env d st) in
  exists rest,
    trace final
    = (trace st2
       ++ ECreateRoom (roomNameFromRoomId env (roomIdOrAlias d)) (createPtt d)
            (orFalse (e2eeEnabled d))
       :: rest)%list
    /\ forallb (fun e => negb (isCreateRoom e || isSetLocalStorageItem e
                           || isSetLoaded e)) rest = true
    /\ localStorage final = localStorage st.
Proof.
  intros Hw Hj Hq Hc final. subst final.
  destruct (waitForClientSyncing_quiet _ _ _ Hw) as (_ & _ & _ & S1).
  destruct (joinAttempt_quiet _ _ _ _ Hj) as (_ & _ & _ & S2).
  unfold effect, loadChain, bind. rewrite Hw.
  unfold fetchOrCreateGroupCall, bind, fetchOrCreateRoom, tryCatch.
  rewrite Hj, Hq. unfold createAttempt, bind, call.
  destruct (createRoom env _ (createPtt d) _ (world st2))
    as [[created|e'|] w'] eqn:E.
  - exfalso. exact (Hc created w' eq_refl).
  - cbn. rewrite <- ?app_assoc, S2, S1. cbn.
    eexists. split; [reflexivity|]. split; reflexivity.
  - cbn. rewrite S2, S1.
    eexists. split; [reflexivity|]. split; reflexivity.
Qed.

Lemma in_quiet_app (before after : list Event) (e : Event) :
  forallb quiet before = true -> quiet e = false ->
  In e (before ++ after) -> In e after.
Proof.
  intros Hq He Hin. apply in_app_or in Hin as [Hin|Hin]; [|exact Hin].
  rewrite forallb_forall in Hq. rewrite (Hq _ Hin) in He. discriminate.
Qed.

Lemma filter_none {A : Type} (f g : A -> bool) (l : list A) :
  (forall x, f x = true -> g x = true) ->
  forallb (fun x => negb (g x)) l = true -> filter f l = [].
Proof.
  intros Hfg. induction l as [|a r IH]; [reflexivity|].
  simpl. intros H. apply andb_true_iff in H as [Ha Hr].
  destruct (f a) eqn:E; [|exact (IH Hr)].
  rewrite (Hfg a E) in Ha. discriminate.
Qed.

(** C2. When the join attempt fails with a not-found error on an
    identifier that [isLocalRoomId] accepts, one run of the effect
    calls [createRoom] exactly once, right after the attempt.  The
    loaded state is reported only when that call has resolved; and
    whenever it has resolved with encryption enabled, the next thing
    the run does is write 32 characters, drawn from the random source
    after the creation, under the local-storage key of the room id that
    [createRoom] returned: it is the run's only write, every report of a
    state comes after it, and at the end local storage holds that key
    there.  With encryption off nothing is written. *)
Theorem effect_creates_once_and_stores_key
    (d : Deps) (w : World) (st1 st2 : St World) (error : MatrixError) :
  waitForClientSyncing env (initialSt w) = (Resolved tt, st1) ->
  joinAttempt env d st1 = (Rejected error, st2) ->
  qualifies env d error = true ->
  let name := roomNameFromRoomId env (roomIdOrAlias d) in
  let e2ee := orFalse (e2eeEnabled d) in
  let final := snd (effect env d (initialSt w)) in
  let created := createRoom env name (createPtt d) e2ee (world st2) in
  length (filter isCreateRoom (trace final)) = 1
  /\ (exists after,
        trace final = (trace st2 ++ ECreateRoom name (createPtt d) e2ee :: after)%list
        /\ forallb quiet (trace st2) = true)
  /\ (forall rtcSession,
        In (ESetState (Loaded rtcSession)) (trace final) ->
        exists alias roomId w', created = (Resolved (alias, roomId), w'))
  /\ (forall alias roomId w',
        created = (Resolved (alias, roomId), w') ->
        Js.truthy (e2eeEnabled d) = true ->
        let storageKey := getRoomSharedKeyLocalStorageKey env roomId in
        let key := fst (randomStringFrom env 32 w') in
        String.length key = 32
        /\ Forall (fun c => In c alphabet) (list_ascii_of_string key)
        /\ localStorage final = [(storageKey, key)]
        /\ getItem storageKey (localStorage final) = Some key
        /\ exists after',
            trace final
            = (trace st2
               ++ ECreateRoom name (createPtt d) e2ee
               :: ESetLocalStorageItem storageKey key :: after')%list
            /\ filter isSetLocalStorageItem after' = []
            /\ forall s, In (ESetState s) (trace final) -> In (ESetState s) after')
  /\ (Js.truthy (e2eeEnabled d) = false ->
      filter isSetLocalStorageItem (trace final) = []
      /\ localStorage final = []).
Proof.
  intros Hw Hj Hq name e2ee final created.
  destruct (waitForClientSyncing_quiet _ _ _ Hw) as (ev1 & T1 & Q1 & _).
  destruct (joinAttempt_quiet _ _ _ _ Hj) as (ev2 & T2 & Q2 & _).
  assert (Hbefore : forallb quiet (trace st2) = true).
  { rewrite T2, T1. simpl. rewrite forallb_app, Q1, Q2. reflexivity. }
  assert (Hnowrite : filter isSetLocalStorageItem (trace st2) = []).
  { apply quiet_not_write, Hbefore. }
  subst created.
  destruct (createRoom env name (createPtt d) e2ee (world st2))
    as [[[alias roomId]|e'|] w'] eqn:Hc.
  - destruct (effect_created d _ st1 st2 error alias roomId w' Hw Hj Hq Hc)
      as (rest & Ht & Hrest & Hs).
    fold name e2ee final in Ht, Hs.
    assert (Hcr : filter isCreateRoom rest = []).
    { apply (filter_none _ (fun e => isCreateRoom e || isSetLocalStorageItem e));
        [|exact Hrest].
      intros x H. rewrite H. reflexivity. }
    assert (Hwr : filter isSetLocalStorageItem rest = []).
    { apply (filter_none _ (fun e => isCreateRoom e || isSetLocalStorageItem e));
        [|exact Hrest].
      intros x H. rewrite H. apply orb_true_r. }
    split; [|split; [|split; [|split]]].
    + rewrite Ht, filter_app, (quiet_not_create _ Hbefore).
      destruct (Js.truthy (e2eeEnabled d)); simpl; rewrite Hcr; reflexivity.
    + eexists. split; [exact Ht|exact Hbefore].
    + intros _ _. exists alias, roomId, w'. reflexivity.
    + intros alias0 roomId0 w0 H He. injection H as <- <- <-.
      rewrite He in Ht, Hs. cbn [app] in Ht, Hs.
      split; [apply randomStringFrom_length|].
      split; [apply randomStringFrom_alphabet|].
      split; [exact Hs|].
      split; [rewrite Hs; cbn [getItem]; rewrite String.eqb_refl; reflexivity|].
      eexists. split; [exact Ht|]. split; [simpl; exact Hwr|].
      intros s Hin. rewrite Ht in Hin.
      apply (in_quiet_app _ _ (ESetState s) Hbefore eq_refl) in Hin.
      destruct Hin as [Hin|[Hin|Hin]]; [discriminate|discriminate|exact Hin].
    + intros He. rewrite He in Ht, Hs. cbn [app] in Ht, Hs.
      split; [|exact Hs].
      rewrite Ht, filter_app, Hnowrite. simpl. exact Hwr.
  - assert (Hno : forall created w0,
               createRoom env name (createPtt d) e2ee (world st2)
               <> (Resolved created, w0)).
    { intros c w0 H. rewrite Hc in H. discriminate. }
    destruct (effect_not_created d _ st1 st2 error Hw Hj Hq Hno)
      as (rest & Ht & Hrest & Hs).
    fold name e2ee final in Ht, Hs.
    assert (Hcr : filter isCreateRoom rest = []).
    { apply (filter_none _ (fun e => isCreateRoom e || isSetLocalStorageItem e
                                     || isSetLoaded e)); [|exact Hrest].
      intros x H. rewrite H. reflexivity. }
    assert (Hwr : filter isSetLocalStorageItem rest = []).
    { apply (filter_none _ (fun e => isCreateRoom e || isSetLocalStorageItem e
                                     || isSetLoaded e)); [|exact Hrest].
      intros x H. rewrite H, orb_true_r. reflexivity. }
    split; [|split; [|split; [|split]]].
    + rewrite Ht, filter_app, (quiet_not_create _ Hbefore). simpl.
      rewrite Hcr. reflexivity.
    + eexists. split; [exact Ht|exact Hbefore].
    + intros s Hin. exfalso. rewrite Ht in Hin.
      apply (in_quiet_app _ _ (ESetState (Loaded s)) Hbefore eq_refl) in Hin.
      destruct Hin as [Hin|Hin]; [discriminate|].
      rewrite forallb_forall in Hrest. specialize (Hrest _ Hin).
      simpl in Hrest. discriminate.
    + intros alias0 roomId0 w0 H. discriminate.
    + intros _. split; [|exact Hs].
      rewrite Ht, filter_app, Hnowrite. simpl. exact Hwr.
  - assert (Hno : forall created w0,
               createRoom env name (createPtt d) e2ee (world st2)
               <> (Resolved created, w0)).
    { intros c w0 H. rewrite Hc in H. discriminate. }
    destruct (effect_not_created d _ st1 st2 error Hw Hj Hq Hno)
      as (rest & Ht & Hrest & Hs).
    fold name e2ee final in Ht, Hs.
    assert (Hcr : filter isCreateRoom rest = []).
    { apply (filter_none _ (fun e => isCreateRoom e || isSetLocalStorageItem e
                                     || isSetLoaded e)); [|exact Hrest].
      intros x H. rewrite H. reflexivity. }
    assert (Hwr : filter isSetLocalStorageItem rest = []).
    { apply (filter_none _ (fun e => isCreateRoom e || isSetLocalStorageItem e
                                     || isSetLoaded e)); [|exact Hrest].
      intros x H. rewrite H, orb_true_r. reflexivity. }
    split; [|split; [|split; [|split]]].
    + rewrite Ht, filter_app, (quiet_not_create _ Hbefore). simpl.
      rewrite Hcr. reflexivity.
    + eexists. split; [exact Ht|exact Hbefore].
    + intros s Hin. exfalso. rewrite Ht in Hin.
      apply (in_quiet_app _ _ (ESetState (Loaded s)) Hbefore eq_refl) in Hin.
      destruct Hin as [Hin|Hin]; [discriminate|].
      rewrite forallb_forall in Hrest. specialize (Hrest _ Hin).
      simpl in Hrest. discriminate.
    + intros alias0 roomId0 w0 H. discriminate.
    + intros _. split; [|exact Hs].
      rewrite Ht, filter_app, Hnowrite. simpl. exact Hwr.
Qed.

(** *** The hook over its lifetime *)

Lemma settledStatus_not_loading (r : Settled MatrixRTCSession) (s : GroupCallStatus) :
  settledStatus r = Some s -> isLoading s = false.
Proof. destruct r; simpl; intros H; inversion H; reflexivity. Qed.

Lemma run_app (h : Hook World) (evs1 evs2 : list HookEvent) :
  run env h (evs1 ++ evs2) = run env (run env h evs1) evs2.
Proof. apply fold_left_app. Qed.

Lemma Forall_removeNth {A : Type} (P : A -> Prop) (k : nat) (xs : list A) :
  Forall P xs -> Forall P (removeNth k xs).
Proof.
  revert k. induction xs as [|x r IH]; intros k H.
  - destruct k; constructor.
  - inversion H; subst. destruct k; simpl; auto.
Qed.

Lemma startEffect_inFlightSettled
    (d : Deps) (s : GroupCallStatus) (pending : list GroupCallStatus) (st : St World) :
  Forall (fun s => isLoading s = false) pending ->
  inFlightSettled (startEffect env d s pending st).
Proof.
  intros H. unfold inFlightSettled, startEffect.
  destruct (loadChain env d st) as [r st'].
  destruct (settledStatus r) as [s'|] eqn:E; simpl; [|exact H].
  apply Forall_app. split; [exact H|].
  constructor; [|constructor]. exact (settledStatus_not_loading _ _ E).
Qed.

Lemma step_inFlightSettled (h : Hook World) (ev : HookEvent) :
  inFlightSettled h -> inFlightSettled (step env h ev).
Proof.
  intros H. destruct ev as [d|k]; simpl.
  - destruct (depsChanged (lastDeps h) d); [|exact H].
    apply startEffect_inFlightSettled, H.
  - destruct (nth_error (inFlight h) k); [|exact H].
    apply Forall_removeNth, H.
Qed.

Lemma state_startEffect
    (d : Deps) (s : GroupCallStatus) (pending : list GroupCallStatus) (st : St World) :
  state (startEffect env d s pending st) = s.
Proof. unfold startEffect. destruct (loadChain env d st). reflexivity. Qed.

Lemma step_not_loading (h : Hook World) (ev : HookEvent) :
  inFlightSettled h ->
  isLoading (state h) = false ->
  isLoading (state (step env h ev)) = false.
Proof.
  intros Hin H. destruct ev as [d|k]; simpl.
  - destruct (depsChanged (lastDeps h) d); [|exact H].
    rewrite state_startEffect. exact H.
  - destruct (nth_error (inFlight h) k) as [s|] eqn:E; [|exact H].
    simpl. apply nth_error_In in E.
    unfold inFlightSettled in Hin. rewrite Forall_forall in Hin.
    exact (Hin _ E).
Qed.

Lemma run_not_loading (evs : list HookEvent) (h : Hook World) :
  inFlightSettled h ->
  isLoading (state h) = false ->
  inFlightSettled (run env h evs)
  /\ isLoading (state (run env h evs)) = false.
Proof.
  revert h. induction evs as [|ev r IH]; intros h Hin H; [auto|].
  simpl. apply IH.
  - apply step_inFlightSettled, Hin.
  - apply step_not_loading; assumption.
Qed.

Lemma run_inFlightSettled (evs : list HookEvent) (h : Hook World) :
  inFlightSettled h -> inFlightSettled (run env h evs).
Proof.
  revert h. induction evs as [|ev r IH]; intros h Hin; [exact Hin|].
  simpl. apply IH, step_inFlightSettled, Hin.
Qed.

Lemma mount_inFlightSettled (d : Deps) (w : World) :
  inFlightSettled (mount env d w).
Proof. apply startEffect_inFlightSettled. constructor. Qed.

Lemma mount_singleRun (d : Deps) (w : World) : singleRun env d w (mount env d w).
Proof.
  unfold singleRun, mount, startEffect.
  destruct (loadChain env d (initialSt w)) as [r st']. simpl.
  split; [reflexivity|]. left. split; [reflexivity|].
  destruct (settledStatus r); reflexivity.
Qed.

Lemma depsChanged_refl (d : Deps) : depsChanged d d = false.
Proof.
  unfold depsChanged.
  rewrite !Nat.eqb_refl, String.eqb_refl, Bool.eqb_reflx.
  destruct (e2eeEnabled d) as [[|]|]; reflexivity.
Qed.

Lemma step_singleRun (d : Deps) (w : World) (h : Hook World) (ev : HookEvent) :
  sameDeps d [ev] = true ->
  singleRun env d w h ->
  singleRun env d w (step env h ev)
  /\ (inFlight h = [] -> step env h ev = h).
Proof.
  intros Hs [Hd Hh]. destruct ev as [d'|k]; simpl in *.
  - rewrite andb_true_r, negb_true_iff in Hs. rewrite Hd, Hs.
    split; [split; assumption|reflexivity].
  - destruct Hh as [[Hst Hin]|[Hout Hin]].
    + rewrite Hin.
      destruct (settledStatus (fst (loadChain env d (initialSt w))))
        as [s|] eqn:E.
      * destruct k as [|k]; simpl.
        -- split; [|discriminate].
           split; [exact Hd|]. right. simpl. rewrite E. auto.
        -- destruct k; simpl; (split; [|reflexivity]);
             (split; [exact Hd|]); left; rewrite E; auto.
      * destruct k; simpl; (split; [|reflexivity]);
          (split; [exact Hd|]); left; rewrite E; auto.
    + rewrite Hin. destruct k; simpl; (split; [|reflexivity]);
        (split; [exact Hd|]); right; auto.
Qed.

Lemma sameDeps_cons (d : Deps) (ev : HookEvent) (evs : list HookEvent) :
  sameDeps d (ev :: evs) = sameDeps d [ev] && sameDeps d evs.
Proof. destruct ev; simpl; rewrite ?andb_true_r; reflexivity. Qed.

Lemma sameDeps_app (d : Deps) (evs1 evs2 : list HookEvent) :
  sameDeps d (evs1 ++ evs2) = sameDeps d evs1 && sameDeps d evs2.
Proof.
  induction evs1 as [|ev r IH]; [reflexivity|].
  destruct ev; simpl; rewrite IH, ?andb_assoc; reflexivity.
Qed.

Lemma run_singleRun (d : Deps) (w : World) (evs : list HookEvent) (h : Hook World) :
  sameDeps d evs = true ->
  singleRun env d w h ->
  singleRun env d w (run env h evs)
  /\ (inFlight h = [] -> run env h evs = h).
Proof.
  revert h. induction evs as [|ev r IH]; intros h Hs Hh; [auto|].
  rewrite sameDeps_cons in Hs. apply andb_true_iff in Hs as [Hev Hr].
  destruct (step_singleRun d w h ev Hev Hh) as [Hh' Hfix].
  simpl. destruct (IH _ Hr Hh') as [Hrun Hfix'].
  split; [exact Hrun|].
  intros Hin. rewrite (Hfix Hin) in *. apply Hfix', Hin.
Qed.

(** A render with a changed dependency starts a run of the effect and
    leaves the status as it is; the status becomes the outcome of that
    run when its chain settles, whatever it was; a chain that never
    settles leaves nothing to come. *)
Lemma step_rerun (h : Hook World) (d' : Deps) :
  depsChanged (lastDeps h) d' = true ->
  let h' := step env h (Render d') in
  state h' = state h
  /\ lastDeps h' = d'
  /\ match settledStatus (fst (loadChain env d' (outside h))) with
     | Some s =>
         inFlight h' = (inFlight h ++ [s])%list
         /\ state (step env h' (Settle (length (inFlight h)))) = s
         /\ isLoading s = false
     | None => inFlight h' = inFlight h
     end.
Proof.
  intros Hd h'. subst h'. cbn [step]. rewrite Hd. unfold startEffect.
  destruct (loadChain env d' (outside h)) as [r st'].
  cbn [state lastDeps inFlight fst].
  split; [reflexivity|]. split; [reflexivity|].
  destruct (settledStatus r) as [s|] eqn:E; [|reflexivity].
  split; [reflexivity|]. split.
  - rewrite nth_error_app2, Nat.sub_diag by apply Nat.le_refl. reflexivity.
  - exact (settledStatus_not_loading _ _ E).
Qed.

(** The dependency list compares its six entries. *)
Lemma depsChanged_false (a b : Deps) :
  depsChanged a b = false
  <-> (client a = client b /\ roomIdOrAlias a = roomIdOrAlias b
       /\ viaServersRef a = viaServersRef b /\ createPtt a = createPtt b
       /\ t a = t b /\ e2eeEnabled a = e2eeEnabled b).
Proof.
  unfold depsChanged. rewrite negb_false_iff, !andb_true_iff.
  rewrite !Nat.eqb_eq, String.eqb_eq, Bool.eqb_true_iff.
  assert (Ho : optBoolEqb (e2eeEnabled a) (e2eeEnabled b) = true
               <-> e2eeEnabled a = e2eeEnabled b).
  { destruct (e2eeEnabled a) as [[|]|], (e2eeEnabled b) as [[|]|]; simpl;
      split; congruence. }
  rewrite Ho. tauto.
Qed.

(** C6 (as the source has it). The status starts at loading and never
    returns to loading; while no dependency changes it is loading or
    what the one run of the effect has set (loaded when its chain
    resolved, failed when it rejected), and once set it stays.  A
    render that changes no dependency does nothing.  A render that
    changes one leaves the status as it is and runs the effect again:
    when the chain of the new run settles the status becomes its
    outcome, loaded or failed, whatever it was before, a loaded or
    failed status included; when it never settles the status is not
    touched by it.  Whenever the chain of a run settles, the new one or
    an earlier one, the status becomes the outcome of that run. *)
Theorem status_transitions
    (d : Deps) (w : World) (evs1 evs2 : list HookEvent) (d' : Deps) :
  let h := mount env d w in
  state h = Loading
  /\ (isLoading (state (run env h evs1)) = false ->
      isLoading (state (run env h (evs1 ++ evs2))) = false)
  /\ (sameDeps d evs1 = true ->
      state (run env h evs1) = Loading
      \/ settledStatus (fst (loadChain env d (initialSt w)))
         = Some (state (run env h evs1)))
  /\ (sameDeps d (evs1 ++ evs2) = true ->
      isLoading (state (run env h evs1)) = false ->
      state (run env h (evs1 ++ evs2)) = state (run env h evs1))
  /\ (let h1 := run env h evs1 in
      let h2 := run env h (evs1 ++ [Render d']) in
      (depsChanged (lastDeps h1) d' = false -> h2 = h1)
      /\ (depsChanged (lastDeps h1) d' = true ->
          state h2 = state h1
          /\ lastDeps h2 = d'
          /\ match settledStatus (fst (loadChain env d' (outside h1))) with
             | Some s =>
                 inFlight h2 = (inFlight h1 ++ [s])%list
                 /\ state (run env h
                             (evs1 ++ [Render d'; Settle (length (inFlight h1))]))
                    = s
                 /\ isLoading s = false
             | None => inFlight h2 = inFlight h1
             end))
  /\ (forall k s,
        nth_error (inFlight (run env h evs1)) k = Some s ->
        state (run env h (evs1 ++ [Settle k])) = s /\ isLoading s = false).
Proof.
  intros h. subst h. split; [|split; [|split; [|split; [|split]]]].
  - unfold mount. apply state_startEffect.
  - intros H. rewrite run_app.
    apply run_not_loading; [|exact H].
    apply run_inFlightSettled, mount_inFlightSettled.
  - intros Hs.
    destruct (run_singleRun d w evs1 _ Hs (mount_singleRun d w))
      as [[_ [[H _]|[H _]]] _]; auto.
  - intros Hs Hl. rewrite sameDeps_app in Hs.
    apply andb_true_iff in Hs as [Hs1 Hs2].
    destruct (run_singleRun d w evs1 _ Hs1 (mount_singleRun d w))
      as [Hsr _].
    rewrite run_app.
    destruct (run_singleRun d w evs2 _ Hs2 Hsr) as [_ Hfix].
    destruct Hsr as [_ [[H _]|[_ Hin]]].
    + rewrite H in Hl. discriminate.
    + rewrite (Hfix Hin). reflexivity.
  - cbv zeta. rewrite !run_app.
    set (h1 := run env (mount env d w) evs1).
    change (run env h1 [Render d']) with (step env h1 (Render d')).
    change (run env h1 [Render d'; Settle (length (inFlight h1))])
      with (step env (step env h1 (Render d')) (Settle (length (inFlight h1)))).
    split.
    + intros Hd. cbn [step]. rewrite Hd. reflexivity.
    + intros Hd. exact (step_rerun h1 d' Hd).
  - intros k s Hk. rewrite run_app.
    set (h1 := run env (mount env d w) evs1) in *.
    change (run env h1 [Settle k]) with (step env h1 (Settle k)).
    cbn [step]. rewrite Hk. split; [reflexivity|].
    pose proof (run_inFlightSettled evs1 _ (mount_inFlightSettled d w)) as Hin.
    unfold inFlightSettled in Hin. rewrite Forall_forall in Hin.
    exact (Hin _ (nth_error_In _ _ Hk)).
Qed.

End WithEnv.

Lemma effect_creates_once_and_stores_key_witness :
  let final := snd (effect Examples.homeserver
                      (Examples.depsFor "#new:example.org") (initialSt 0)) in
  length (filter isCreateRoom (trace final)) = 1
  /\ localStorage final
     = [("room-shared-key-!new:example.org", "ABCDEFGHIJKLMNOPQRSTUVWXYZabcdef")].
Proof.
  destruct (effect_creates_once_and_stores_key Examples.homeserver
              (Examples.depsFor "#new:example.org") 0
              (initialSt 0)
              {| world := 0; localStorage := [];
                 trace := [EJoinRoom "#new:example.org" []] |}
              Examples.notFound eq_refl eq_refl eq_refl)
    as (Hone & _ & _ & Hkey & _).
  split; [exact Hone|].
  destruct (Hkey "#new:example.org" "!new:example.org" 0 eq_refl eq_refl)
    as (_ & _ & Hs & _).
  exact Hs.
Defined.

(** The run of that example reports the loaded state, the key written
    before. *)
Example effect_new_room_trace :
  trace (snd (effect Examples.homeserver (Examples.depsFor "#new:example.org")
                (initialSt 0)))
  = [EJoinRoom "#new:example.org" [];
     ECreateRoom "new" false true;
     ESetLocalStorageItem "room-shared-key-!new:example.org"
                          "ABCDEFGHIJKLMNOPQRSTUVWXYZabcdef";
     EWaitUntilRoomReady "!new:example.org";
     EGetRoom "!new:example.org";
     ELog "Fetched / joined room #new:example.org";
     EGetRoomSession (Some {| roomId := "!new:example.org" |});
     ESetState (Loaded {| room := {| roomId := "!new:example.org" |};
                          memberships := [] |})].
Proof. reflexivity. Qed.

(** C6 (as stated) fails: the hook is in the failed state after the
    first run of its effect, and in the loaded state after the room
    identifier has changed and the effect has run again. *)
Lemma status_leaves_failed :
  let h := mount Examples.homeserver (Examples.depsFor "!secret:elsewhere.org") 0 in
  state (run Examples.homeserver h [Settle 0]) = Failed Examples.forbidden
  /\ state (run Examples.homeserver h
              ([Settle 0] ++ [Render (Examples.depsFor "#room:example.org"); Settle 0]))
     = Loaded {| room := {| roomId := "!abc:example.org" |}; memberships := [] |}.
Proof. split; reflexivity. Qed.

Lemma status_transitions_witness :
  state (run Examples.homeserver
           (mount Examples.homeserver (Examples.depsFor "#room:example.org") 0)
           ([Settle 0] ++ [Render (Examples.depsFor "#room:example.org"); Settle 0]))
  = state (run Examples.homeserver
             (mount Examples.homeserver (Examples.depsFor "#room:example.org") 0)
             [Settle 0])
  /\ state (run Examples.homeserver
              (mount Examples.homeserver (Examples.depsFor "!secret:elsewhere.org") 0)
              ([Settle 0] ++ [Render (Examples.depsFor "#room:example.org"); Settle 0]))
     = Loaded {| room := {| roomId := "!abc:example.org" |}; memberships := [] |}.
Proof.
  split.
  - destruct (status_transitions Examples.homeserver
                (Examples.depsFor "#room:example.org") 0
                [Settle 0] [Render (Examples.depsFor "#room:example.org"); Settle 0]
                (Examples.depsFor "#room:example.org"))
      as (_ & _ & _ & H & _).
    apply H; reflexivity.
  - destruct (status_transitions Examples.homeserver
                (Examples.depsFor "!secret:elsewhere.org") 0
                [Settle 0] [] (Examples.depsFor "#room:example.org"))
      as (_ & _ & _ & _ & (_ & H) & _).
    destruct (H eq_refl) as (_ & _ & _ & Hs & _).
    exact Hs.
Defined.

End LoadGroupCallFacts.

(** ** URLSearchParams: serializing and parsing *)

Module URLSearchParamsRoundTrip.
Import URLSearchParams.

Lemma unescape_encode_cons (c : ascii) (r : string) :
  percentDecode (plusToSpace (encode (String c r)))
  = String c (percentDecode (plusToSpace (encode r))).
Proof.
  destruct c as [[] [] [] [] [] [] [] []]; reflexivity.
Qed.

(** Unescaping undoes encoding, for every byte string. *)
Lemma unescape_encode (s : string) : percentDecode (plusToSpace (encode s)) = s.
Proof.
  induction s as [|c r IH]; [reflexivity|].
  rewrite unescape_encode_cons, IH. reflexivity.
Qed.

(** Decoding what was encoded gives the bytes back, read as UTF-8. *)
Lemma decode_encode (s : string) : decode (encode s) = utf8Decode s.
Proof. unfold decode. rewrite unescape_encode. reflexivity. Qed.

Lemma decode_fixed (s : string) : utf8Decode (decode s) = decode s.
Proof. apply Utf8Facts.utf8Decode_idempotent. Qed.

Lemma encode_cons_no_amp (c : ascii) (r : string) :
  Js.includes "&" (encode (String c r)) = Js.includes "&" (encode r).
Proof.
  destruct c as [[] [] [] [] [] [] [] []]; reflexivity.
Qed.

Lemma encode_cons_no_eq (c : ascii) (r : string) :
  Js.includes "=" (encode (String c r)) = Js.includes "=" (encode r).
Proof.
  destruct c as [[] [] [] [] [] [] [] []]; reflexivity.
Qed.

Lemma encode_no_amp (s : string) : Js.includes "&" (encode s) = false.
Proof.
  induction s as [|c r IH]; [reflexivity|].
  rewrite encode_cons_no_amp. exact IH.
Qed.

Lemma encode_no_eq (s : string) : Js.includes "=" (encode s) = false.
Proof.
  induction s as [|c r IH]; [reflexivity|].
  rewrite encode_cons_no_eq. exact IH.
Qed.

Lemma includes_char_append (c : ascii) (a b : string) :
  Js.includes (String c "") (a ++ b)
  = Js.includes (String c "") a || Js.includes (String c "") b.
Proof.
  induction a as [|x a IH].
  - simpl. destruct b; reflexivity.
  - change (String x a ++ b) with (String x (a ++ b)).
    rewrite !JsFacts.includes_char_cons, IH, orb_assoc. reflexivity.
Qed.

Lemma split_app_sep (sep : ascii) (a rest : string) :
  Js.includes (String sep "") a = false ->
  Js.split sep (a ++ String sep rest) = a :: Js.split sep rest.
Proof.
  induction a as [|x a IH]; intros H.
  - simpl. rewrite Ascii.eqb_refl. reflexivity.
  - rewrite JsFacts.includes_char_cons in H.
    apply orb_false_elim in H as [Hx Ha].
    change (String x a ++ String sep rest) with (String x (a ++ String sep rest)).
    simpl. rewrite Ascii.eqb_sym, Hx, (IH Ha). reflexivity.
Qed.

Lemma pairString_no_amp (kv : string * string) :
  Js.includes "&" (URLSearchParamsText.pairString kv) = false.
Proof.
  unfold URLSearchParamsText.pairString.
  rewrite includes_char_append, encode_no_amp.
  change ("=" ++ encode (snd kv)) with (String "=" (encode (snd kv))).
  rewrite JsFacts.includes_char_cons, encode_no_amp. reflexivity.
Qed.

Lemma pairString_not_empty (kv : string * string) :
  isEmpty (URLSearchParamsText.pairString kv) = false.
Proof. unfold URLSearchParamsText.pairString. destruct (encode (fst kv)); reflexivity. Qed.

Lemma parsePair_pairString (kv : string * string) :
  parsePair (URLSearchParamsText.pairString kv)
  = (utf8Decode (fst kv), utf8Decode (snd kv)).
Proof.
  destruct kv as [k v]. unfold parsePair, URLSearchParamsText.pairString. simpl fst; simpl snd.
  change (encode k ++ "=" ++ encode v) with (encode k ++ String "=" (encode v)).
  rewrite (URLSearchParamsFacts.cut_app "=" _ _ (encode_no_eq k)).
  rewrite !decode_encode. reflexivity.
Qed.

(** Parsing what [toString] gives returns the pairs in their order,
    each name and value read as UTF-8. *)
Lemma parseUrlencoded_toString_utf8 (p : t) :
  parseUrlencoded (toString p)
  = map (fun kv => (utf8Decode (fst kv), utf8Decode (snd kv))) p.
Proof.
  unfold toString. fold URLSearchParamsText.pairString.
  change (fun kv : string * string => encode (fst kv) ++ "=" ++ encode (snd kv))
    with URLSearchParamsText.pairString.
  induction p as [|kv r IH]; [reflexivity|].
  destruct r as [|kv' r'].
  - simpl. unfold parseUrlencoded.
    rewrite (URLSearchParamsFacts.split_no_sep "&" _ (pairString_no_amp kv)).
    simpl. rewrite pairString_not_empty. simpl.
    rewrite parsePair_pairString. reflexivity.
  - change (join "&" (map URLSearchParamsText.pairString (kv :: kv' :: r')))
      with (URLSearchParamsText.pairString kv ++ String "&" (join "&" (map URLSearchParamsText.pairString (kv' :: r')))).
    unfold parseUrlencoded in *.
    rewrite (split_app_sep "&" _ _ (pairString_no_amp kv)).
    simpl filter. rewrite pairString_not_empty. simpl negb. cbv iota.
    simpl map at 1. rewrite parsePair_pairString.
    change (map ?f (kv :: ?l)) with (f kv :: map f l).
    f_equal. exact IH.
Qed.

(** Parsing what [toString] gives returns the pairs themselves when
    their names and values are UTF-8. *)
Lemma parseUrlencoded_toString (p : t) :
  wellFormed p -> parseUrlencoded (toString p) = p.
Proof.
  intros H. rewrite parseUrlencoded_toString_utf8.
  induction H as [|[k v] r [Hk Hv] _ IH]; [reflexivity|].
  simpl in *. rewrite Hk, Hv, IH. reflexivity.
Qed.

(** What the parser returns is UTF-8. *)
Lemma parsePair_wellFormed (seq : string) :
  utf8Decode (fst (parsePair seq)) = fst (parsePair seq)
  /\ utf8Decode (snd (parsePair seq)) = snd (parsePair seq).
Proof.
  unfold parsePair. destruct (cut "=" seq) as [name [value|]]; simpl;
    split; try apply decode_fixed; reflexivity.
Qed.

Lemma parseUrlencoded_wellFormed (input : string) :
  wellFormed (parseUrlencoded input).
Proof.
  unfold parseUrlencoded, wellFormed.
  induction (filter (fun q => negb (isEmpty q)) (Js.split "&" input)) as [|q r IH];
    simpl; constructor; [apply parsePair_wellFormed|exact IH].
Qed.

Lemma filter_wellFormed (f : string * string -> bool) (p : t) :
  wellFormed p -> wellFormed (filter f p).
Proof.
  unfold wellFormed. induction 1 as [|kv r Hkv _ IH]; simpl; [constructor|].
  destruct (f kv); [constructor; assumption|exact IH].
Qed.

(** [set] keeps the pairs UTF-8 when the name and the value are. *)
Lemma set_wellFormed (name value : string) (p : t) :
  utf8Decode name = name -> utf8Decode value = value ->
  wellFormed p -> wellFormed (set name value p).
Proof.
  intros Hn Hv. unfold wellFormed.
  induction 1 as [|[k v] r [Hk Hv'] Hr IH]; simpl.
  - constructor; [split; assumption|constructor].
  - destruct (String.eqb k name).
    + constructor; [split; assumption|]. apply filter_wellFormed, Hr.
    + constructor; [split; assumption|exact IH].
Qed.

End URLSearchParamsRoundTrip.

(** ** src/UrlParams.ts: reading what was edited, and the parameter parser *)

Module UrlParamsMoreFacts.
Import UrlParams.

(** The hash that [editFragmentQuery] returns carries the text of the
    edited parameters as its query. *)
Lemma fragmentParams_editFragmentQuery
    (search hash : string) (edit : URLSearchParams.t -> URLSearchParams.t) :
  fragmentParams (newParamParser search (editFragmentQuery hash edit))
  = URLSearchParams.parseUrlencoded
      (URLSearchParams.toString (edit (fragmentParams (newParamParser search hash)))).
Proof.
  destruct (Js.includes "?" hash) eqn:E.
  - destruct (UrlParamsFacts.includes_char_split "?" hash E)
      as (pre & rest & -> & Hpre).
    rewrite (UrlParamsFacts.editFragmentQuery_with_query pre rest edit Hpre).
    change (pre ++ "?" ++ ?x) with (pre ++ String "?" x).
    rewrite !(UrlParamsFacts.fragmentParams_with_query search pre _ Hpre).
    reflexivity.
  - rewrite (UrlParamsFacts.editFragmentQuery_without_query hash edit E).
    rewrite (UrlParamsFacts.fragmentParams_without_query search hash E).
    change ("?" ++ ?x) with ("" ++ String "?" x).
    rewrite (UrlParamsFacts.fragmentParams_with_query search "" _ eq_refl).
    reflexivity.
Qed.

Lemma fragmentParams_wellFormed (search hash : string) :
  URLSearchParams.wellFormed (fragmentParams (newParamParser search hash)).
Proof.
  rewrite UrlParamsFacts.fragmentParams_embeddedQuery.
  apply URLSearchParamsRoundTrip.parseUrlencoded_wellFormed.
Qed.

(** X1. The parameters read from the hash that [editFragmentQuery]
    returns are the edited parameters of the original hash, whatever the
    hash, for every edit whose result has names and values that are
    text (UTF-8, as every string handed to [URLSearchParams] is
    serialized); the page's query is read as before. *)
Theorem editFragmentQuery_read_back
    (search hash : string) (edit : URLSearchParams.t -> URLSearchParams.t) :
  URLSearchParams.wellFormed (edit (fragmentParams (newParamParser search hash))) ->
  fragmentParams (newParamParser search (editFragmentQuery hash edit))
  = edit (fragmentParams (newParamParser search hash))
  /\ queryParams (newParamParser search (editFragmentQuery hash edit))
     = queryParams (newParamParser search hash).
Proof.
  intros H. split; [|reflexivity].
  rewrite fragmentParams_editFragmentQuery.
  apply URLSearchParamsRoundTrip.parseUrlencoded_toString, H.
Qed.

Lemma editFragmentQuery_read_back_witness :
  URLSearchParams.wellFormed
    (URLSearchParams.set "b" "x y"
       (fragmentParams (newParamParser "" "#/room?a=%FF&b=1&b=2")))
  /\ editFragmentQuery "#/room?a=%FF&b=1&b=2" (URLSearchParams.set "b" "x y")
     = "#/room?a=%EF%BF%BD&b=x+y"
  /\ fragmentParams
       (newParamParser ""
          (editFragmentQuery "#/room?a=%FF&b=1&b=2" (URLSearchParams.set "b" "x y")))
     = [("a", URLSearchParams.replacement); ("b", "x y")].
Proof.
  assert (H : URLSearchParams.wellFormed
                (URLSearchParams.set "b" "x y"
                   (fragmentParams (newParamParser "" "#/room?a=%FF&b=1&b=2")))).
  { repeat constructor. }
  split; [exact H|]. split; [reflexivity|].
  destruct (editFragmentQuery_read_back "" "#/room?a=%FF&b=1&b=2"
              (URLSearchParams.set "b" "x y") H) as [-> _].
  reflexivity.
Defined.

Lemma get_set_same (name value : string) (p : URLSearchParams.t) :
  URLSearchParams.get name (URLSearchParams.set name value p) = Some value.
Proof.
  induction p as [|[k v] r IH]; simpl.
  - rewrite String.eqb_refl. reflexivity.
  - destruct (String.eqb k name) eqn:E; simpl; rewrite E; [reflexivity|exact IH].
Qed.

Lemma get_filter_other (name other : string) (p : URLSearchParams.t) :
  String.eqb other name = false ->
  URLSearchParams.get other
    (filter (fun kv => negb (String.eqb (fst kv) name)) p)
  = URLSearchParams.get other p.
Proof.
  intros H. induction p as [|[k v] r IH]; [reflexivity|].
  simpl. destruct (String.eqb k name) eqn:E; simpl.
  - apply String.eqb_eq in E; subst k.
    rewrite String.eqb_sym, H. exact IH.
  - destruct (String.eqb k other); [reflexivity|exact IH].
Qed.

Lemma get_set_other (name other value : string) (p : URLSearchParams.t) :
  String.eqb other name = false ->
  URLSearchParams.get other (URLSearchParams.set name value p)
  = URLSearchParams.get other p.
Proof.
  intros H. induction p as [|[k v] r IH]; simpl.
  - rewrite String.eqb_sym, H. reflexivity.
  - destruct (String.eqb k name) eqn:E; simpl.
    + apply String.eqb_eq in E; subst k.
      rewrite String.eqb_sym, H. apply get_filter_other, H.
    + destruct (String.eqb k other); [reflexivity|exact IH].
Qed.

(** X2. Read back from the hash the app selection modal builds,
    [confineToRoom] is ["true"] and [appPrompt] is ["false"], whatever
    the hash and the page's query had; every other parameter reads as
    it did before. *)
Theorem appHash_params (search hash name : string) :
  getParam (newParamParser search (AppSelectionModal.appHash hash)) name
  = if String.eqb name "confineToRoom" then Some "true"
    else if String.eqb name "appPrompt" then Some "false"
    else getParam (newParamParser search hash) name.
Proof.
  unfold getParam, AppSelectionModal.appHash.
  rewrite fragmentParams_editFragmentQuery.
  rewrite URLSearchParamsRoundTrip.parseUrlencoded_toString
    by (unfold AppSelectionModal.confineEdit;
        repeat apply URLSearchParamsRoundTrip.set_wellFormed;
        try reflexivity; apply fragmentParams_wellFormed).
  change (queryParams (newParamParser search
            (editFragmentQuery hash AppSelectionModal.confineEdit)))
    with (queryParams (newParamParser search hash)).
  unfold AppSelectionModal.confineEdit.
  destruct (String.eqb name "confineToRoom") eqn:E1.
  - apply String.eqb_eq in E1; subst name. rewrite get_set_same. reflexivity.
  - rewrite (get_set_other _ _ _ _ E1).
    destruct (String.eqb name "appPrompt") eqn:E2.
    + apply String.eqb_eq in E2; subst name. rewrite get_set_same. reflexivity.
    + rewrite (get_set_other _ _ _ _ E2). reflexivity.
Qed.

Lemma hd_getAll (name : string) (p : URLSearchParams.t) :
  hd_error (URLSearchParams.getAll name p) = URLSearchParams.get name p.
Proof.
  unfold URLSearchParams.getAll.
  induction p as [|[k v] r IH]; [reflexivity|].
  simpl. destruct (String.eqb k name); [reflexivity|exact IH].
Qed.

(** X3. What [getParam] returns is the first of what [getAllParams]
    returns, and [hasParam] holds exactly when there is one. *)
Theorem getParam_first_of_all (search hash name : string) :
  let parser := newParamParser search hash in
  hd_error (getAllParams parser name) = getParam parser name
  /\ (hasParam parser name = true <-> getParam parser name <> None)
  /\ (getAllParams parser name = [] <-> hasParam parser name = false).
Proof.
  intros parser. subst parser.
  pose proof (UrlParamsFacts.getParam_absent search hash name) as Ha.
  set (parser := newParamParser search hash) in *.
  assert (Hhd : hd_error (getAllParams parser name) = getParam parser name).
  { unfold getAllParams, getParam, nullish.
    rewrite <- !hd_getAll.
    destruct (URLSearchParams.getAll name (fragmentParams parser)); reflexivity. }
  split; [exact Hhd|]. split.
  - destruct (hasParam parser name).
    + split; [|reflexivity]. intros _ Hn. apply Ha in Hn. discriminate.
    + split; [discriminate|]. intros Hn. exfalso. apply Hn, Ha. reflexivity.
  - rewrite <- Ha, <- Hhd.
    destruct (getAllParams parser name); simpl; split; congruence.
Qed.

(** X4. When the hash has no [?] every parameter is read from the
    page's query, and each one found there brings the warning. *)
Theorem params_from_query_only (search hash name : string) :
  Js.includes "?" hash = false ->
  let parser := newParamParser search hash in
  getParam parser name = URLSearchParams.get name (URLSearchParams.ofString search)
  /\ getAllParams parser name
     = URLSearchParams.getAll name (URLSearchParams.ofString search)
  /\ warnsQueryParam parser name = hasParam parser name.
Proof.
  intros H parser. subst parser.
  unfold getParam, getAllParams, warnsQueryParam, hasParam.
  rewrite (UrlParamsFacts.fragmentParams_without_query search hash H).
  repeat split; reflexivity.
Qed.

Lemma params_from_query_only_witness :
  getParam (newParamParser "?roomId=!abc" "#room") "roomId" = Some "!abc"
  /\ warnsQueryParam (newParamParser "?roomId=!abc" "#room") "roomId" = true.
Proof.
  destruct (params_from_query_only "?roomId=!abc" "#room" "roomId" eq_refl)
    as (Hg & _ & Hw).
  split; [rewrite Hg|rewrite Hw]; reflexivity.
Defined.

End UrlParamsMoreFacts.

(** ** src/UrlParams.ts: the room identifier *)

Module RoomIdentifierFacts.
Import UrlParams.

Lemma includes_empty (s : string) : Js.includes "" s = true.
Proof. destruct s; reflexivity. Qed.

(** X5. The room id of the identifier is the [roomId] parameter when
    that begins with [!], and absent otherwise: a room id that is
    returned begins with [!], and the second test of the source
    ([includes("")]) rejects nothing. *)
Theorem getRoomIdentifierFromUrl_roomId
    (defaultServerName pathname search hash r : string) :
  RoomIdentifier.roomId
    (getRoomIdentifierFromUrl defaultServerName pathname search hash) = Some r
  <-> getParam (newParamParser search hash) "roomId" = Some r
      /\ exists rest, r = String "!" rest.
Proof.
  unfold getRoomIdentifierFromUrl. cbn [RoomIdentifier.roomId].
  destruct (getParam (newParamParser search hash) "roomId") as [v|].
  - rewrite includes_empty. cbn [negb].
    destruct v as [|c v']; cbn [Js.startsWith negb].
    + split; [discriminate|]. intros [H [rest Hr]]. congruence.
    + destruct (Ascii.eqb "!" c) eqn:E; cbn [andb negb].
      * apply Ascii.eqb_eq in E; subst c. split.
        -- intros H. injection H as <-. split; [reflexivity|]. eexists; reflexivity.
        -- intros [H _]. exact H.
      * split; [discriminate|]. intros [H [rest Hr]].
        injection H as <-. injection Hr as Hc _. subst c.
        rewrite Ascii.eqb_refl in E. discriminate.
  - split; [discriminate|]. intros [H _]. discriminate.
Qed.

Lemma charAt0_append (a b : string) (c : ascii) :
  Js.charAt0 a <> Some c -> Js.charAt0 b <> Some c -> Js.charAt0 (a ++ b) <> Some c.
Proof. destruct a; simpl; auto. Qed.

(** X6. For every path, query and hash, the alias is [#] followed by a
    part that does not begin with [#] and has a [:] in it. *)
Theorem getRoomIdentifierFromUrl_alias_shape
    (defaultServerName pathname search hash : string) :
  exists rest,
    RoomIdentifier.roomAlias
      (getRoomIdentifierFromUrl defaultServerName pathname search hash)
    = Some (String "#" rest)
    /\ Js.charAt0 rest <> Some "#"%char
    /\ Js.includes ":" rest = true.
Proof.
  destruct (UrlParamsFacts.baseRoomString_some pathname hash) as [base Hb].
  rewrite (UrlParamsFacts.roomAlias_of_base _ _ _ _ _ Hb).
  destruct (JsFacts.dropWhileChar_spec "#" base) as (n & _ & Hc).
  destruct (Js.includes ":" base) eqn:E.
  - exists (Js.dropWhileChar "#" base). repeat split; auto.
    rewrite JsFacts.includes_dropWhileChar; [exact E|reflexivity].
  - exists (Js.dropWhileChar "#" base ++ ":" ++ defaultServerName).
    repeat split.
    + apply charAt0_append; [exact Hc|discriminate].
    + change (":" ++ defaultServerName) with (String ":" defaultServerName).
      apply JsFacts.includes_char_app.
Qed.

(** X7. When the hash is not empty and does not begin with [#?], the
    alias comes from the hash alone: the path plays no part. *)
Theorem getRoomIdentifierFromUrl_alias_of_hash
    (defaultServerName pathname pathname' search hash : string) :
  hash <> "" ->
  Js.startsWith "#?" hash = false ->
  RoomIdentifier.roomAlias
    (getRoomIdentifierFromUrl defaultServerName pathname search hash)
  = Some (if Js.includes ":" hash
          then String "#" (Js.dropWhileChar "#" hash)
          else String "#" (Js.dropWhileChar "#" hash) ++ ":" ++ defaultServerName)
  /\ RoomIdentifier.roomAlias
       (getRoomIdentifierFromUrl defaultServerName pathname search hash)
     = RoomIdentifier.roomAlias
         (getRoomIdentifierFromUrl defaultServerName pathname' search hash).
Proof.
  intros Hne Hs.
  assert (Hb : forall p, baseRoomString p hash = Some hash).
  { intros p. unfold baseRoomString. rewrite Hs, orb_false_r.
    destruct (String.eqb hash "") eqn:E; [|reflexivity].
    apply String.eqb_eq in E. contradiction. }
  rewrite !(UrlParamsFacts.roomAlias_of_base _ _ _ _ _ (Hb _)).
  split; reflexivity.
Qed.

Lemma getRoomIdentifierFromUrl_alias_of_hash_witness :
  RoomIdentifier.roomAlias
    (getRoomIdentifierFromUrl "call.example.org" "/room/other" "" "#lobby")
  = Some "#lobby:call.example.org".
Proof.
  apply (getRoomIdentifierFromUrl_alias_of_hash
           "call.example.org" "/room/other" "/" "" "#lobby");
    [discriminate|reflexivity].
Defined.

Lemma pop_split_app_sep (sep : ascii) (pre a : string) :
  Js.includes (String sep "") a = false ->
  Js.pop (Js.split sep (pre ++ String sep a)) = Some a.
Proof.
  intros Ha. induction pre as [|x r IH].
  - simpl. rewrite Ascii.eqb_refl.
    rewrite (URLSearchParamsFacts.split_no_sep sep a Ha). reflexivity.
  - change (String x r ++ String sep a) with (String x (r ++ String sep a)).
    pose proof (JsFacts.split_not_nil sep (r ++ String sep a)) as Hne.
    simpl. destruct (Ascii.eqb x sep).
    + destruct (Js.split sep (r ++ String sep a)) as [|y l]; [contradiction|].
      rewrite JsFacts.pop_cons. exact IH.
    + destruct (Js.split sep (r ++ String sep a)) as [|y [|z l]] eqn:E.
      * contradiction.
      * apply JsFacts.split_single in E as [_ E].
        rewrite JsFacts.includes_char_app in E. discriminate.
      * rewrite JsFacts.pop_cons. rewrite JsFacts.pop_cons in IH. exact IH.
Qed.

Lemma dropWhileChar_id (c : ascii) (s : string) :
  Js.charAt0 s <> Some c -> Js.dropWhileChar c s = s.
Proof.
  destruct s as [|a r]; [reflexivity|]. simpl. intros H.
  destruct (Ascii.eqb a c) eqn:E; [|reflexivity].
  apply Ascii.eqb_eq in E. subst a. contradiction H. reflexivity.
Qed.

(** X8. An alias that was resolved resolves to itself: put as the last
    segment of a path (it must have no [/] for that), with no hash, it
    is returned as it is, whatever the default server name is then. *)
Theorem getRoomIdentifierFromUrl_alias_stable
    (defaultServerName defaultServerName' pathname search hash : string)
    (prefix search' alias : string) :
  RoomIdentifier.roomAlias
    (getRoomIdentifierFromUrl defaultServerName pathname search hash)
  = Some alias ->
  Js.includes "/" alias = false ->
  RoomIdentifier.roomAlias
    (getRoomIdentifierFromUrl defaultServerName' (prefix ++ "/" ++ alias) search' "")
  = Some alias.
Proof.
  intros Ha Hslash.
  destruct (getRoomIdentifierFromUrl_alias_shape
              defaultServerName pathname search hash) as (rest & Hr & Hc & Hi).
  rewrite Ha in Hr. injection Hr as ->.
  rewrite (UrlParamsFacts.roomAlias_of_base _ _ _ _ (String "#" rest)).
  - change (Js.includes ":" (String "#" rest)) with (Js.includes ":" rest).
    rewrite Hi.
    change (Js.dropWhileChar "#" (String "#" rest)) with (Js.dropWhileChar "#" rest).
    rewrite (dropWhileChar_id _ _ Hc). reflexivity.
  - rewrite UrlParamsFacts.baseRoomString_path by (left; reflexivity).
    change (prefix ++ "/" ++ String "#" rest)
      with (prefix ++ String "/" (String "#" rest)).
    apply pop_split_app_sep, Hslash.
Qed.

Lemma getRoomIdentifierFromUrl_alias_stable_witness :
  RoomIdentifier.roomAlias
    (getRoomIdentifierFromUrl "other.example.org" "/room/#foo:call.example.org" "" "")
  = Some "#foo:call.example.org".
Proof.
  apply (getRoomIdentifierFromUrl_alias_stable
           "call.example.org" "other.example.org" "/##foo" "" "#?embed"
           "/room" "" "#foo:call.example.org");
    reflexivity.
Defined.

End RoomIdentifierFacts.

(** ** src/room/useLoadGroupCall.ts: every run of the effect *)

Module LoadGroupCallRunFacts.
Import Matrix LoadGroupCall.

Lemma filter_nil_not_in {A : Type} (f : A -> bool) (l : list A) (x : A) :
  filter f l = [] -> In x l -> f x = false.
Proof.
  induction l as [|a r IH]; [contradiction|].
  simpl. destruct (f a) eqn:E; [discriminate|].
  intros H [->|Hin]; auto.
Qed.

Section WithEnv.

Context {World : Type}.
Variable env : Env World.

(** The first thing the [try] block does is call [joinRoom], with the
    identifier lower-cased when it is an alias. *)
Lemma joinAttempt_starts_with_join (d : Deps) (st st' : St World)
    (r : Settled (option Room)) :
  joinAttempt env d st = (r, st') ->
  exists evs,
    trace st' = (trace st ++ EJoinRoom (sanitisedIdOrAlias env d) (viaServers d) :: evs)%list
    /\ forallb quiet evs = true.
Proof.
  unfold joinAttempt, bind, call, emit, ret. simpl.
  destruct (joinRoom env _ _ _) as [[room|e|] w1]; simpl.
  - destruct (waitUntilRoomReadyForGroupCalls env _ _) as [[[]|e|] w2];
      simpl; intros H; injection H as <- <-; simpl;
      eexists; rewrite <- ?app_assoc; split; reflexivity.
  - intros H; injection H as <- <-; simpl. eexists; split; reflexivity.
  - intros H; injection H as <- <-; simpl. eexists; split; reflexivity.
Qed.

Ltac storage_case Hlen :=
  simpl; rewrite <- ?app_assoc; simpl;
  eexists; split; [reflexivity|]; split; [reflexivity|];
  first [ left; reflexivity
        | right; split; [reflexivity|]; do 2 eexists;
          split; [exact Hlen | reflexivity] ].

(** A run whose join attempt fails with a qualifying error: the events
    that follow the attempt start with the one call of [createRoom], and
    local storage gets at most the one key. *)
Lemma effect_after_failed_join
    (d : Deps) (st st1 st2 : St World) (error : MatrixError) :
  waitForClientSyncing env st = (Resolved tt, st1) ->
  joinAttempt env d st1 = (Rejected error, st2) ->
  qualifies env d error = true ->
  let name := roomNameFromRoomId env (roomIdOrAlias d) in
  let e2ee := orFalse (e2eeEnabled d) in
  let final := snd (effect env d st) in
  exists after,
    trace final = (trace st2 ++ ECreateRoom name (createPtt d) e2ee :: after)%list
    /\ filter isCreateRoom after = []
    /\ (localStorage final = localStorage st2
        \/ (Js.truthy (e2eeEnabled d) = true
            /\ exists roomId key,
                String.length key = 32
                /\ localStorage final
                   = (getRoomSharedKeyLocalStorageKey env roomId, key)
                       :: localStorage st2)).
Proof.
  intros Hw Hj Hq name e2ee final.
  subst final. unfold effect, loadChain, bind. rewrite Hw.
  unfold fetchOrCreateGroupCall, bind, fetchOrCreateRoom, tryCatch.
  rewrite Hj, Hq. unfold createAttempt, bind, call.
  fold name e2ee.
  destruct (createRoom env name (createPtt d) e2ee (world st2))
    as [[[alias roomId]|e'|] w'] eqn:Hc.
  - cbn [snd].
    destruct (Js.truthy (e2eeEnabled d)) eqn:He.
    + unfold randomString, setLocalStorageItem. cbn [world localStorage trace].
      pose proof (LoadGroupCallFacts.randomStringFrom_length env 32 w') as Hlen.
      destruct (randomStringFrom env 32 w') as [key w2]. cbn [fst] in Hlen.
      cbn.
      destruct (waitUntilRoomReadyForGroupCalls env roomId w2) as [[[]|e2|] w3].
      * unfold getRoomNow, emit. cbn.
        destruct (getRoomSession env (getRoom env roomId w3) w3)
          as [[s|e3|] w4]; storage_case Hlen.
      * storage_case Hlen.
      * storage_case Hlen.
    + unfold ret. cbn.
      destruct (waitUntilRoomReadyForGroupCalls env roomId w') as [[[]|e2|] w3].
      * unfold getRoomNow, emit. cbn.
        destruct (getRoomSession env (getRoom env roomId w3) w3)
          as [[s|e3|] w4]; storage_case I.
      * storage_case I.
      * storage_case I.
  - storage_case I.
  - storage_case I.
Qed.

Ltac quiet_case T1 T2 Q1 Q2 S1 S2 :=
  cbn; rewrite ?T2, ?T1, ?S2, ?S1, <- ?app_assoc;
  eexists; split; [reflexivity|]; split; [|reflexivity];
  rewrite ?filter_app, ?(LoadGroupCallFacts.quiet_not_create _ Q1);
  simpl; rewrite ?filter_app, ?(LoadGroupCallFacts.quiet_not_create _ Q2);
  reflexivity.

(** A run either has a join attempt that failed with a qualifying error,
    or it creates no room and leaves local storage as it was. *)
Lemma effect_cases (d : Deps) (st : St World) :
  (exists st1 st2 error,
      waitForClientSyncing env st = (Resolved tt, st1)
      /\ joinAttempt env d st1 = (Rejected error, st2)
      /\ qualifies env d error = true)
  \/ (exists evs,
        trace (snd (effect env d st)) = (trace st ++ evs)%list
        /\ filter isCreateRoom evs = []
        /\ localStorage (snd (effect env d st)) = localStorage st).
Proof.
  destruct (waitForClientSyncing env st) as [[[]|e|] st1] eqn:Hw;
    destruct (LoadGroupCallFacts.waitForClientSyncing_quiet env _ _ _ Hw)
      as (ev1 & T1 & Q1 & S1).
  - destruct (joinAttempt env d st1) as [[room|e|] st2] eqn:Hj;
      destruct (joinAttempt_starts_with_join d _ _ _ Hj) as (ev2 & T2 & Q2);
      destruct (LoadGroupCallFacts.joinAttempt_quiet env d _ _ _ Hj)
        as (_ & _ & _ & S2).
    + right. unfold effect, loadChain, bind. rewrite Hw.
      unfold fetchOrCreateGroupCall, bind, fetchOrCreateRoom, tryCatch.
      rewrite Hj. unfold emit, call. cbn.
      destruct (getRoomSession env room (world st2)) as [[s|e|] w'];
        quiet_case T1 T2 Q1 Q2 S1 S2.
    + destruct (qualifies env d e) eqn:Hq.
      * left. exists st1, st2, e. auto.
      * right. unfold effect, loadChain, bind. rewrite Hw.
        unfold fetchOrCreateGroupCall, bind, fetchOrCreateRoom, tryCatch.
        rewrite Hj, Hq. unfold throw.
        quiet_case T1 T2 Q1 Q2 S1 S2.
    + right. unfold effect, loadChain, bind. rewrite Hw.
      unfold fetchOrCreateGroupCall, bind, fetchOrCreateRoom, tryCatch.
      rewrite Hj. quiet_case T1 T2 Q1 Q2 S1 S2.
  - right. unfold effect, loadChain, bind. rewrite Hw.
    quiet_case T1 T1 Q1 Q1 S1 S1.
  - right. unfold effect, loadChain, bind. rewrite Hw.
    quiet_case T1 T1 Q1 Q1 S1 S1.
Qed.

(** X9. In any run of the effect [createRoom] is called at most once,
    and only after the client was syncing and the join attempt, begun
    with a call of [joinRoom], failed with a not-found error on an
    identifier that [isLocalRoomId] accepts. *)
Theorem effect_creates_only_after_failed_join (d : Deps) (st : St World) :
  exists evs,
    trace (snd (effect env d st)) = (trace st ++ evs)%list
    /\ length (filter isCreateRoom evs) <= 1
    /\ forall name ptt e2ee,
        In (ECreateRoom name ptt e2ee) evs ->
        exists st1 st2 error before after,
          waitForClientSyncing env st = (Resolved tt, st1)
          /\ joinAttempt env d st1 = (Rejected error, st2)
          /\ qualifies env d error = true
          /\ evs = (before ++ ECreateRoom name ptt e2ee :: after)%list
          /\ In (EJoinRoom (sanitisedIdOrAlias env d) (viaServers d)) before.
Proof.
  destruct (effect_cases d st) as [(st1 & st2 & error & Hw & Hj & Hq)|(evs & T & F & _)].
  - destruct (effect_after_failed_join d st st1 st2 error Hw Hj Hq)
      as (after & Ht & Ha & _).
    destruct (LoadGroupCallFacts.waitForClientSyncing_quiet env _ _ _ Hw)
      as (ev1 & T1 & Q1 & _).
    destruct (joinAttempt_starts_with_join d _ _ _ Hj) as (ev2 & T2 & Q2).
    rewrite T2, T1, <- !app_assoc in Ht. simpl in Ht.
    set (create := ECreateRoom (roomNameFromRoomId env (roomIdOrAlias d))
                     (createPtt d) (orFalse (e2eeEnabled d))) in *.
    set (join := EJoinRoom (sanitisedIdOrAlias env d) (viaServers d)) in *.
    exists (ev1 ++ join :: ev2 ++ create :: after)%list.
    split; [exact Ht|]. split.
    + rewrite filter_app, (LoadGroupCallFacts.quiet_not_create _ Q1). simpl.
      rewrite filter_app, (LoadGroupCallFacts.quiet_not_create _ Q2). simpl.
      rewrite Ha. simpl. lia.
    + intros name ptt e2ee Hin.
      exists st1, st2, error, (ev1 ++ join :: ev2)%list, after.
      assert (Hc : ECreateRoom name ptt e2ee = create).
      { apply in_app_or in Hin as [Hin|[Hin|Hin]].
        - rewrite forallb_forall in Q1. specialize (Q1 _ Hin). discriminate.
        - discriminate.
        - apply in_app_or in Hin as [Hin|[Hin|Hin]].
          + rewrite forallb_forall in Q2. specialize (Q2 _ Hin). discriminate.
          + symmetry. exact Hin.
          + apply (filter_nil_not_in _ _ _ Ha) in Hin. discriminate. }
      rewrite Hc. repeat split; auto.
      * rewrite <- app_assoc. reflexivity.
      * apply in_or_app. right. left. reflexivity.
  - exists evs. split; [exact T|]. split; [rewrite F; simpl; lia|].
    intros name ptt e2ee Hin.
    apply (filter_nil_not_in _ _ _ F) in Hin. discriminate.
Qed.

(** X10. A join attempt that fails with any other error, or on an
    identifier that [isLocalRoomId] does not accept, makes the hook fail
    with that very error; no room is created and nothing is stored. *)
Theorem effect_join_error_propagates
    (d : Deps) (st st1 st2 : St World) (error : MatrixError) :
  waitForClientSyncing env st = (Resolved tt, st1) ->
  joinAttempt env d st1 = (Rejected error, st2) ->
  qualifies env d error = false ->
  effect env d st
  = (Some (Failed error),
     {| world := world st2; localStorage := localStorage st;
        trace := trace st2 ++ [ESetState (Failed error)] |}).
Proof.
  intros Hw Hj Hq.
  destruct (LoadGroupCallFacts.waitForClientSyncing_quiet env _ _ _ Hw)
    as (_ & _ & _ & S1).
  destruct (LoadGroupCallFacts.joinAttempt_quiet env d _ _ _ Hj)
    as (_ & _ & _ & S2).
  unfold effect, loadChain, bind. rewrite Hw.
  unfold fetchOrCreateGroupCall, bind, fetchOrCreateRoom, tryCatch.
  rewrite Hj, Hq. unfold throw. cbn. rewrite S2, S1. reflexivity.
Qed.

(** X11. When the join attempt succeeds the session is asked for the
    room joined, and the hook is loaded with it, or failed with the
    error of that call; no room is created and nothing is stored. *)
Theorem effect_joined
    (d : Deps) (st st1 st2 : St World) (joined : option Room) :
  waitForClientSyncing env st = (Resolved tt, st1) ->
  joinAttempt env d st1 = (Resolved joined, st2) ->
  (exists r, joined = Some r)
  /\ fst (effect env d st)
     = settledStatus (fst (getRoomSession env joined (world st2)))
  /\ localStorage (snd (effect env d st)) = localStorage st
  /\ exists evs,
      trace (snd (effect env d st)) = (trace st ++ evs)%list
      /\ filter isCreateRoom evs = []
      /\ In (EGetRoomSession joined) evs.
Proof.
  intros Hw Hj.
  destruct (LoadGroupCallFacts.waitForClientSyncing_quiet env _ _ _ Hw)
    as (ev1 & T1 & Q1 & S1).
  destruct (joinAttempt_starts_with_join d _ _ _ Hj) as (ev2 & T2 & Q2).
  destruct (LoadGroupCallFacts.joinAttempt_quiet env d _ _ _ Hj)
    as (_ & _ & _ & S2).
  split.
  - revert Hj. unfold joinAttempt, bind, call, emit, ret. simpl.
    destruct (joinRoom env _ _ _) as [[room|e|] w1]; simpl; try discriminate.
    destruct (waitUntilRoomReadyForGroupCalls env _ _) as [[[]|e|] w2];
      simpl; try discriminate.
    intros H. injection H as <- _. eexists; reflexivity.
  - unfold effect, loadChain, bind. rewrite Hw.
    unfold fetchOrCreateGroupCall, bind, fetchOrCreateRoom, tryCatch.
    rewrite Hj. unfold emit, call. cbn.
    destruct (getRoomSession env joined (world st2)) as [[s|e|] w']; cbn;
      rewrite ?T2, ?T1, ?S2, ?S1, <- ?app_assoc;
      (split; [reflexivity|]); (split; [reflexivity|]);
      eexists; (split; [reflexivity|]);
      (split;
       [ rewrite ?filter_app, ?(LoadGroupCallFacts.quiet_not_create _ Q1);
         simpl; rewrite ?filter_app, ?(LoadGroupCallFacts.quiet_not_create _ Q2);
         reflexivity
       | apply in_or_app; right; right; apply in_or_app; right;
         simpl; auto ]).
Qed.

(** X12. When creating the room fails, the hook fails with the error
    of the creation, not with the not-found error of the join, and
    nothing is stored. *)
Theorem effect_creation_error
    (d : Deps) (st st1 st2 : St World) (error error' : MatrixError) (w' : World) :
  waitForClientSyncing env st = (Resolved tt, st1) ->
  joinAttempt env d st1 = (Rejected error, st2) ->
  qualifies env d error = true ->
  createRoom env (roomNameFromRoomId env (roomIdOrAlias d)) (createPtt d)
    (orFalse (e2eeEnabled d)) (world st2) = (Rejected error', w') ->
  fst (effect env d st) = Some (Failed error')
  /\ localStorage (snd (effect env d st)) = localStorage st.
Proof.
  intros Hw Hj Hq Hc.
  destruct (LoadGroupCallFacts.waitForClientSyncing_quiet env _ _ _ Hw)
    as (_ & _ & _ & S1).
  destruct (LoadGroupCallFacts.joinAttempt_quiet env d _ _ _ Hj)
    as (_ & _ & _ & S2).
  unfold effect, loadChain, bind. rewrite Hw.
  unfold fetchOrCreateGroupCall, bind, fetchOrCreateRoom, tryCatch.
  rewrite Hj, Hq. unfold createAttempt, bind, call. rewrite Hc. cbn.
  rewrite S2, S1. split; reflexivity.
Qed.

(** X13. A run of the effect leaves local storage as it was, or, only
    when encryption is enabled and only when the room was created after
    a failed join, with one more entry: the 32 characters drawn after
    the creation, under the storage key of the room id that
    [createRoom] returned.  Whenever the creation resolves, storage has
    that entry if encryption is enabled and is as it was if not. *)
Theorem effect_storage (d : Deps) (st : St World) :
  let final := snd (effect env d st) in
  let name := roomNameFromRoomId env (roomIdOrAlias d) in
  let e2ee := orFalse (e2eeEnabled d) in
  (if Js.truthy (e2eeEnabled d)
   then localStorage final = localStorage st
        \/ exists st1 st2 error alias roomId w',
             waitForClientSyncing env st = (Resolved tt, st1)
             /\ joinAttempt env d st1 = (Rejected error, st2)
             /\ qualifies env d error = true
             /\ createRoom env name (createPtt d) e2ee (world st2)
                = (Resolved (alias, roomId), w')
             /\ String.length (fst (randomStringFrom env 32 w')) = 32
             /\ localStorage final
                = (getRoomSharedKeyLocalStorageKey env roomId,
                   fst (randomStringFrom env 32 w')) :: localStorage st
   else localStorage final = localStorage st)
  /\ (forall st1 st2 error alias roomId w',
        waitForClientSyncing env st = (Resolved tt, st1) ->
        joinAttempt env d st1 = (Rejected error, st2) ->
        qualifies env d error = true ->
        createRoom env name (createPtt d) e2ee (world st2)
        = (Resolved (alias, roomId), w') ->
        localStorage final
        = if Js.truthy (e2eeEnabled d)
          then (getRoomSharedKeyLocalStorageKey env roomId,
                fst (randomStringFrom env 32 w')) :: localStorage st
          else localStorage st).
Proof.
  intros final name e2ee. subst final name e2ee. split.
  - destruct (effect_cases d st)
      as [(st1 & st2 & error & Hw & Hj & Hq)|(evs & _ & _ & S)].
    + destruct (createRoom env (roomNameFromRoomId env (roomIdOrAlias d))
                  (createPtt d) (orFalse (e2eeEnabled d)) (world st2))
        as [[[alias roomId]|e'|] w'] eqn:Hc.
      * destruct (LoadGroupCallFacts.effect_created env d st st1 st2 error
                    alias roomId w' Hw Hj Hq Hc) as (rest & _ & _ & Hs).
        destruct (Js.truthy (e2eeEnabled d)); [|exact Hs].
        right. exists st1, st2, error, alias, roomId, w'.
        repeat split; try assumption.
        apply LoadGroupCallFacts.randomStringFrom_length.
      * destruct (LoadGroupCallFacts.effect_not_created env d st st1 st2 error
                    Hw Hj Hq) as (rest & _ & _ & Hs).
        { intros c w0 H. rewrite Hc in H. discriminate. }
        destruct (Js.truthy (e2eeEnabled d)); auto.
      * destruct (LoadGroupCallFacts.effect_not_created env d st st1 st2 error
                    Hw Hj Hq) as (rest & _ & _ & Hs).
        { intros c w0 H. rewrite Hc in H. discriminate. }
        destruct (Js.truthy (e2eeEnabled d)); auto.
    + destruct (Js.truthy (e2eeEnabled d)); auto.
  - intros st1 st2 error alias roomId w' Hw Hj Hq Hc.
    destruct (LoadGroupCallFacts.effect_created env d st st1 st2 error
                alias roomId w' Hw Hj Hq Hc) as (rest & _ & _ & Hs).
    destruct (Js.truthy (e2eeEnabled d)); exact Hs.
Qed.

(** X14. The join is attempted only in a world in which the client is
    syncing; while it never is, the effect makes no call and sets no
    state: it logs that it waits, and that is all. *)
Theorem effect_waits_for_sync (d : Deps) (st : St World) :
  match waitForClientSyncing env st with
  | (Resolved _, st1) => isSyncing (getSyncState env (world st1)) = true
  | (Pending, st') =>
      effect env d st = (None, st')
      /\ world st' = world st
      /\ trace st'
         = (trace st
            ++ [ELog "useLoadGroupCall: waiting for client to start syncing..."])%list
      /\ forallb (fun w => negb (isSyncing (getSyncState env w)))
           (world st :: syncEmissions env (world st)) = true
  | (Rejected _, _) => False
  end.
Proof.
  unfold effect, loadChain, bind, waitForClientSyncing.
  destruct (isSyncing (getSyncState env (world st))) eqn:E; [exact E|].
  destruct (find _ (syncEmissions env (world st))) as [w|] eqn:F.
  - apply find_some in F as [_ F]. exact F.
  - cbn. repeat split. rewrite E. cbn.
    apply forallb_forall. intros w Hin.
    apply (find_none _ _ F) in Hin. rewrite Hin. reflexivity.
Qed.

(** X15. Nothing cancels a run of the effect: when a dependency has
    changed while the first run is in flight and the second run settles
    first, the later end of the first run sets the state, and the hook
    shows the outcome for the old dependencies. *)
Theorem stale_run_sets_state
    (d1 d2 : Deps) (w : World) (s1 s2 : GroupCallStatus) :
  inFlight (run env (mount env d1 w) [Render d2]) = [s1; s2] ->
  let h := run env (mount env d1 w) [Render d2; Settle 1; Settle 0] in
  state h = s1
  /\ lastDeps h = d2
  /\ inFlight h = []
  /\ settledStatus (fst (loadChain env d1 (initialSt w))) = Some s1.
Proof.
  intros H h. subst h.
  change (run env (mount env d1 w) [Render d2; Settle 1; Settle 0])
    with (step env (step env (run env (mount env d1 w) [Render d2]) (Settle 1))
            (Settle 0)).
  set (h1 := run env (mount env d1 w) [Render d2]) in *.
  assert (Hd : lastDeps h1 = d2
               /\ settledStatus (fst (loadChain env d1 (initialSt w))) = Some s1).
  { subst h1. revert H. unfold run, mount, startEffect. cbn [fold_left step].
    destruct (loadChain env d1 (initialSt w)) as [r1 st1].
    cbn [lastDeps state inFlight outside fst].
    destruct (depsChanged d1 d2).
    - unfold startEffect. destruct (loadChain env d2 st1) as [r2 st2].
      destruct (settledStatus r1) as [a|]; destruct (settledStatus r2) as [b|];
        cbn; intros H; try discriminate.
      injection H as -> ->. auto.
    - destruct (settledStatus r1) as [a|]; cbn; intros H; discriminate. }
  destruct Hd as [Hd Hs]. unfold step. rewrite H. cbn. auto.
Qed.

End WithEnv.

Lemma effect_join_error_propagates_witness :
  fst (effect Examples.homeserver (Examples.depsFor "!secret:elsewhere.org")
         (initialSt 0))
  = Some (Failed Examples.forbidden).
Proof.
  rewrite (effect_join_error_propagates Examples.homeserver
             (Examples.depsFor "!secret:elsewhere.org") (initialSt 0) (initialSt 0)
             (Examples2.afterJoin "!secret:elsewhere.org") Examples.forbidden
             eq_refl eq_refl eq_refl).
  reflexivity.
Defined.

Lemma effect_joined_witness :
  fst (effect Examples.homeserver (Examples.depsFor "#room:example.org") (initialSt 0))
  = Some (Loaded {| room := {| roomId := "!abc:example.org" |}; memberships := [] |}).
Proof.
  destruct (effect_joined Examples.homeserver
              (Examples.depsFor "#room:example.org") (initialSt 0) (initialSt 0)
              {| world := 0; localStorage := [];
                 trace := [EJoinRoom "#room:example.org" [];
                           ELog "Joined #room:example.org, waiting room to be ready for group calls";
                           EWaitUntilRoomReady "!abc:example.org";
                           ELog "#room:example.org, is ready for group calls"] |}
              (Some {| roomId := "!abc:example.org" |})
              eq_refl eq_refl) as (_ & H & _).
  rewrite H. reflexivity.
Defined.

Lemma effect_creation_error_witness :
  fst (effect Examples2.homeserverNoCreate (Examples.depsFor "#new:example.org")
         (initialSt 0))
  = Some (Failed Examples2.limitExceeded).
Proof.
  apply (effect_creation_error Examples2.homeserverNoCreate
           (Examples.depsFor "#new:example.org") (initialSt 0) (initialSt 0)
           (Examples2.afterJoin "#new:example.org")
           Examples.notFound Examples2.limitExceeded 0);
    reflexivity.
Defined.

Lemma stale_run_sets_state_witness :
  state (run Examples.homeserver
           (mount Examples.homeserver (Examples.depsFor "!secret:elsewhere.org") 0)
           [Render (Examples.depsFor "#room:example.org"); Settle 1; Settle 0])
  = Failed Examples.forbidden.
Proof.
  apply (stale_run_sets_state Examples.homeserver
           (Examples.depsFor "!secret:elsewhere.org")
           (Examples.depsFor "#room:example.org") 0
           (Failed Examples.forbidden)
           (Loaded {| room := {| roomId := "!abc:example.org" |}; memberships := [] |})).
  reflexivity.
Defined.

End LoadGroupCallRunFacts.

(** ** src/room/GroupCallView.tsx: participants, rendering, leaving *)

Module GroupCallViewMoreFacts.
Import Matrix GroupCallView.

Section WithMember.

Variables Membership RoomMember : Type.
Variable member : Membership -> RoomMember.
Variable userId : RoomMember -> string.

Lemma has_In (id : string) (added : list string) :
  Participants.has id added = true <-> In id added.
Proof.
  unfold Participants.has. rewrite existsb_exists. split.
  - intros (x & Hin & E). apply String.eqb_eq in E. subst x. exact Hin.
  - intros H. exists id. split; [exact H|apply String.eqb_refl].
Qed.

Lemma loop_spec (memberships : list Membership) :
  forall (added : list string) (members : list RoomMember),
    map userId members = added ->
    NoDup added ->
    let result := Participants.loop member userId memberships added members in
    NoDup (map userId result)
    /\ (forall u, In u (map userId result)
                  <-> In u added \/ In u (map (fun m => userId (member m)) memberships))
    /\ (forall r, In r result ->
                  In r members \/ exists m, In m memberships /\ member m = r)
    /\ length result <= length members + length memberships.
Proof.
  induction memberships as [|m rest IH]; intros added members Hmap Hnd; simpl.
  - rewrite Hmap. repeat split; auto.
    + intros [H|[]]; exact H.
    + lia.
  - destruct (Participants.has (userId (member m)) added) eqn:E; simpl.
    + apply has_In in E.
      destruct (IH added members Hmap Hnd) as (H1 & H2 & H3 & H4).
      repeat split; auto.
      * intros H. apply H2 in H. tauto.
      * intros [H|[H|H]]; apply H2; auto. subst u. auto.
      * intros r Hr. destruct (H3 r Hr) as [H|(m' & Hm' & Hr')]; auto.
        right. exists m'. auto.
      * lia.
    + assert (Hn : ~ In (userId (member m)) added).
      { intros H. apply has_In in H. congruence. }
      destruct (IH (added ++ [userId (member m)])%list (members ++ [member m])%list)
        as (H1 & H2 & H3 & H4).
      * rewrite map_app, Hmap. reflexivity.
      * apply NoDup_app; auto.
        -- constructor; [intros []|constructor].
        -- intros a Ha [<-|[]]. contradiction.
      * repeat split; auto.
        -- intros H. apply H2 in H. rewrite in_app_iff in H. simpl in H. tauto.
        -- intros H. apply H2. rewrite in_app_iff. simpl. tauto.
        -- intros r Hr. destruct (H3 r Hr) as [H|(m' & Hm' & Hr')].
           ++ apply in_app_or in H as [H|[<-|[]]]; auto.
              right. exists m. auto.
           ++ right. exists m'. auto.
        -- rewrite length_app in H4. simpl in H4. lia.
Qed.

(** X16. The participants have pairwise different user ids; their user
    ids are those of the memberships; each of them is the member of a
    membership; and there are no more of them than memberships. *)
Theorem participatingMembers_spec (memberships : list Membership) :
  let result := Participants.participatingMembers member userId memberships in
  NoDup (map userId result)
  /\ (forall u, In u (map userId result)
                <-> In u (map (fun m => userId (member m)) memberships))
  /\ (forall r, In r result -> exists m, In m memberships /\ member m = r)
  /\ length result <= length memberships.
Proof.
  destruct (loop_spec memberships [] [] eq_refl (NoDup_nil _))
    as (H1 & H2 & H3 & H4).
  repeat split; auto.
  - intros H. apply H2 in H as [[]|H]. exact H.
  - intros H. apply H2. auto.
  - intros r Hr. destruct (H3 r Hr) as [[]|H]. exact H.
Qed.

End WithMember.

(** X17. In an encrypted room, whatever is shown that is not an error
    or the incompatible-browser screen is shown with encryption enabled
    and supported and a key at hand; and the call is given that key. *)
Theorem render_encrypted_room (p : Props) (r : Reads) :
  Js.truthy (isRoomE2EE r) = true ->
  match render p r with
  | ErrorView _ | IncompatibleBrowserView => True
  | ActiveCallView e2eeConfig _ =>
      Js.truthy (e2eeEnabled r) = true /\ isE2EESupported r = true
      /\ e2eeConfig = e2eeSharedKey r /\ Js.truthyStr e2eeConfig = true
  | CallEndedView _ | NothingView | LobbyView _ =>
      Js.truthy (e2eeEnabled r) = true /\ isE2EESupported r = true
      /\ Js.truthyStr (e2eeSharedKey r) = true
  end.
Proof.
  intros Hr. unfold render. rewrite Hr.
  destruct (Js.truthy (e2eeEnabled r)) eqn:E1;
    destruct (Js.truthyStr (e2eeSharedKey r)) eqn:E2;
    destruct (isE2EESupported r) eqn:E3; cbn [andb negb]; try exact I.
  destruct (isJoined r); [auto|].
  destruct (left r).
  - destruct (isPasswordlessUser p || analyticsIsEnabled r && negb (widget r)
              || isSome (leaveError r)); auto.
  - destruct (preload p); auto.
Qed.

Lemma render_encrypted_room_witness :
  Js.truthy (e2eeEnabled Examples.joinedWithKey) = true
  /\ isE2EESupported Examples.joinedWithKey = true
  /\ Some "secret" = e2eeSharedKey Examples.joinedWithKey
  /\ Js.truthyStr (Some "secret") = true.
Proof.
  exact (render_encrypted_room Examples.joinedProps Examples.joinedWithKey eq_refl).
Defined.

Section WithAnalytics.

Variable Analytics : Type.
Variable track : string -> nat -> bool -> Analytics -> Analytics.
Variable logout : Analytics -> Analytics.
Variable isEnabled : Analytics -> bool.

(** X18. After [onLeave], not joined any more and with no fatal screen
    to show, the component shows the call-ended view or nothing; it
    shows nothing when [onLeave] went home without an error, and the
    call-ended view when there was a leave error.  It shows nothing
    without having gone home exactly for a registered user who left
    without an error, confined to the room with analytics off, or in a
    widget with analytics on. *)
Theorem render_after_leave
    (p : Props) (lag : nat) (e : option MatrixError) (s : St Analytics) (r : Reads) :
  isJoined r = false ->
  (Js.truthy (isRoomE2EE r) = true ->
   Js.truthy (e2eeEnabled r) = true /\ isE2EESupported r = true
   /\ Js.truthyStr (e2eeSharedKey r) = true) ->
  let result := onLeave track logout isEnabled p (widget r) lag e s in
  let view := render p (AfterLeave.readsAfter isEnabled r (fst result)) in
  (view = CallEndedView e \/ view = NothingView)
  /\ (navigated result = true -> e = None -> view = NothingView)
  /\ (isSome e = true -> view = CallEndedView e)
  /\ (view = NothingView /\ navigated result = false
      <-> isPasswordlessUser p = false /\ e = None
          /\ (if isEnabled (analytics (fst result))
              then widget r = true else confineToRoom p = true)).
Proof.
  intros Hj Hfatal result view.
  assert (Hst : st_left (fst result) = true /\ st_leaveError (fst result) = e).
  { subst result. destruct (widget r).
    - rewrite GroupCallViewFacts.onLeave_widget_effects. split; reflexivity.
    - rewrite GroupCallViewFacts.onLeave_page_effects. split; reflexivity. }
  destruct Hst as [Hl He].
  assert (Hnav : navigated result
                 = goesHome isEnabled p (analytics (fst result))).
  { subst result. unfold navigated. destruct (widget r).
    - rewrite GroupCallViewFacts.onLeave_widget_effects.
      cbn [fst snd analytics]. destruct (goesHome isEnabled p _); reflexivity.
    - rewrite GroupCallViewFacts.onLeave_page_effects.
      cbn [fst snd analytics]. destruct (goesHome isEnabled p _); reflexivity. }
  unfold goesHome in Hnav.
  assert (Hview : view = if isPasswordlessUser p
                            || (isEnabled (analytics (fst result)) && negb (widget r))
                            || isSome e
                         then CallEndedView e else NothingView).
  { subst view. unfold render, AfterLeave.readsAfter.
    cbn [isJoined e2eeSharedKey isRoomE2EE e2eeEnabled isE2EESupported
         joinRuleIsPublic left leaveError analyticsIsEnabled widget].
    rewrite Hj, Hl, He.
    destruct (Js.truthy (isRoomE2EE r)) eqn:Er.
    - destruct (Hfatal eq_refl) as (-> & -> & ->). reflexivity.
    - rewrite !andb_false_r. reflexivity. }
  rewrite Hview, Hnav. clear Hview Hnav view.
  destruct (isPasswordlessUser p), (confineToRoom p),
    (isEnabled (analytics (fst result))), (widget r), e; cbn;
    intuition (try discriminate; try congruence; auto).
Qed.

End WithAnalytics.

Lemma render_after_leave_witness :
  render Examples.joinedProps
    (AfterLeave.readsAfter Examples.isEnabled Examples2.afterCallReads
       (fst (onLeave Examples.track Examples.logout Examples.isEnabled
               Examples.joinedProps false 0 None Examples.analyticsOff)))
  = NothingView.
Proof.
  assert (F : Js.truthy (isRoomE2EE Examples2.afterCallReads) = true ->
              Js.truthy (e2eeEnabled Examples2.afterCallReads) = true
              /\ isE2EESupported Examples2.afterCallReads = true
              /\ Js.truthyStr (e2eeSharedKey Examples2.afterCallReads) = true)
    by (intros H; discriminate H).
  pose proof (render_after_leave bool Examples.track Examples.logout
                Examples.isEnabled Examples.joinedProps 0 None
                Examples.analyticsOff Examples2.afterCallReads eq_refl F) as H.
  cbv zeta in H. destruct H as (_ & H & _).
  exact (H eq_refl eq_refl).
Defined.

End GroupCallViewMoreFacts.

(** ** src/room/useActiveFocus.ts: a run of notifications *)

Module ActiveFocusRunFacts.
Import Matrix ActiveFocus ActiveFocusRuns.

(** From a committed render the listener is [onMembershipsChanged] on
    the state of the hook. *)
Lemma membershipsChanged_committed (m : Mounted) (rtcSession : MatrixRTCSession) :
  listenerFocus m = activeFocus (hook m) ->
  hook (membershipsChanged m rtcSession) = onMembershipsChanged (hook m) rtcSession.
Proof.
  intros H. unfold membershipsChanged, onMembershipsChanged. rewrite H.
  destruct (getActiveFocus rtcSession) as [new l].
  destruct (negb (deepCompare (activeFocus (hook m)) new)); reflexivity.
Qed.

Lemma membershipsChanged_fields (m : Mounted) (rtcSession : MatrixRTCSession) :
  let m' := membershipsChanged m rtcSession in
  listenerFocus m' = listenerFocus m
  /\ activeFocus (hook m')
     = (if differs (listenerFocus m) rtcSession
        then focusOf rtcSession else activeFocus (hook m))
  /\ setActiveFocusCalls (hook m')
     = (setActiveFocusCalls (hook m)
        ++ (if differs (listenerFocus m) rtcSession
            then [focusOf rtcSession] else []))%list.
Proof.
  unfold membershipsChanged, differs, focusOf.
  destruct (getActiveFocus rtcSession) as [new l]. cbn [fst].
  destruct (negb (deepCompare (listenerFocus m) new)); cbn;
    rewrite ?app_nil_r; auto.
Qed.

Lemma last_cons_default {A : Type} (x d : A) (l : list A) :
  last (x :: l) d = last l x.
Proof.
  revert x d. induction l as [|y r IH]; intros x d; [reflexivity|].
  change (last (x :: y :: r) d) with (last (y :: r) d).
  rewrite (IH y d), (IH y x). reflexivity.
Qed.

Lemma last_map {A B : Type} (f : A -> B) (l : list A) (d : A) :
  last (map f l) (f d) = f (last l d).
Proof.
  induction l as [|x r IH]; [reflexivity|].
  destruct r as [|y r']; [reflexivity|]. exact IH.
Qed.

(** Notifications between two commits: the listener keeps its focus,
    and calls [setActiveFocus] at each notification that finds another
    focus than that one. *)
Lemma run_notifications (sessions : list MatrixRTCSession) (m : Mounted) :
  let m' := run m (notifications sessions) in
  let changes := map focusOf (filter (differs (listenerFocus m)) sessions) in
  listenerFocus m' = listenerFocus m
  /\ setActiveFocusCalls (hook m') = (setActiveFocusCalls (hook m) ++ changes)%list
  /\ activeFocus (hook m') = last changes (activeFocus (hook m)).
Proof.
  revert m. induction sessions as [|s r IH]; intros m; cbv zeta.
  - cbn. rewrite app_nil_r. auto.
  - change (run m (notifications (s :: r)))
      with (run (membershipsChanged m s) (notifications r)).
    destruct (IH (membershipsChanged m s)) as (Hl & Hc & Ha).
    destruct (membershipsChanged_fields m s) as (Fl & Fa & Fc).
    rewrite Hl, Hc, Ha, Fl, Fc, Fa. cbn [filter].
    destruct (differs (listenerFocus m) s); cbn [map].
    + rewrite <- app_assoc, last_cons_default. auto.
    + rewrite app_nil_r. auto.
Qed.

(** With a render committed after each notification the state follows
    the session. *)
Lemma run_committed (sessions : list MatrixRTCSession) (m : Mounted) :
  listenerFocus m = activeFocus (hook m) ->
  let m' := run m (committed sessions) in
  listenerFocus m' = activeFocus (hook m')
  /\ activeFocus (hook m') = last (map focusOf sessions) (activeFocus (hook m)).
Proof.
  revert m. induction sessions as [|s r IH]; intros m H; cbv zeta.
  - cbn. auto.
  - change (run m (committed (s :: r)))
      with (run (commit (membershipsChanged m s)) (committed r)).
    destruct (IH (commit (membershipsChanged m s)) eq_refl) as (Hl & Ha).
    split; [exact Hl|]. rewrite Ha. cbn [commit hook map].
    rewrite last_cons_default. f_equal.
    destruct (membershipsChanged_fields m s) as (_ & Fa & _).
    rewrite Fa. unfold differs.
    destruct (deepCompare (listenerFocus m) (focusOf s)) eqn:E; [|reflexivity].
    apply ActiveFocusFacts.deepCompare_eq in E. cbn [negb]. congruence.
Qed.

Lemma mount_fields (rtcSession : MatrixRTCSession) :
  listenerFocus (mount rtcSession) = focusOf rtcSession
  /\ activeFocus (hook (mount rtcSession)) = focusOf rtcSession
  /\ setActiveFocusCalls (hook (mount rtcSession)) = [].
Proof.
  unfold mount, useActiveFocus, focusOf.
  destruct (getActiveFocus rtcSession); auto.
Qed.

(** X19. With a render committed after each notification, the published
    focus is the one of the session as the last notification found it:
    the first focus of its oldest membership.  Without the renders it
    need not be: a session that goes from one focus to another and back
    before a render is committed leaves the other focus published. *)
Theorem committed_run_tracks_session
    (sessions : list MatrixRTCSession) (rtcSession : MatrixRTCSession) :
  let m := run (mount rtcSession) (committed sessions) in
  activeFocus (hook m) = fst (getActiveFocus (last sessions rtcSession))
  /\ listenerFocus m = activeFocus (hook m)
  /\ fst (getActiveFocus (last sessions rtcSession))
     = match memberships (last sessions rtcSession) with
       | oldest :: _ => hd_error (activeFoci oldest)
       | [] => None
       end
  /\ (let stale :=
        run (mount Examples.sessionA)
          (notifications [Examples.sessionB; Examples.sessionA]) in
      activeFocus (hook stale) = Some Examples.focusB
      /\ fst (getActiveFocus Examples.sessionA) = Some Examples.focusA
      /\ activeFocus (hook (run stale [Commit; MembershipsChanged Examples.sessionA]))
         = Some Examples.focusA).
Proof.
  intros m. subst m.
  destruct (mount_fields rtcSession) as (Ml & Ma & _).
  destruct (run_committed sessions (mount rtcSession)) as (Hl & Ha).
  { rewrite Ml, Ma. reflexivity. }
  split; [|split; [exact Hl|split]].
  - rewrite Ha, Ma. apply (last_map focusOf).
  - apply ActiveFocusFacts.getActiveFocus_oldest_first.
  - repeat split; reflexivity.
Qed.

Lemma distinctNeighbours_snoc {A : Type} (xs : list A) (d x : A) :
  xs <> [] ->
  distinctNeighbours xs -> last xs d <> x -> distinctNeighbours (xs ++ [x]).
Proof.
  induction xs as [|a r IH]; [congruence|]. intros _ Hd Hl.
  destruct r as [|b r'].
  - simpl in *. auto.
  - change ((a :: b :: r') ++ [x])%list with (a :: ((b :: r') ++ [x]))%list.
    destruct Hd as [Hab Hd].
    change (a <> b /\ distinctNeighbours ((b :: r') ++ [x])).
    split; [exact Hab|]. apply IH; auto. discriminate.
Qed.

Lemma run_committed_snoc (m : Mounted) (sessions : list MatrixRTCSession)
    (s : MatrixRTCSession) :
  run m (committed (sessions ++ [s]))
  = commit (membershipsChanged (run m (committed sessions)) s).
Proof.
  unfold run, committed. rewrite flat_map_app, fold_left_app. reflexivity.
Qed.

(** With a render committed after each notification no call repeats the
    one before it. *)
Lemma committed_calls (sessions : list MatrixRTCSession) (m : Mounted)
    (initial : option LivekitFocus) :
  listenerFocus m = activeFocus (hook m) ->
  distinctNeighbours (initial :: setActiveFocusCalls (hook m)) ->
  last (setActiveFocusCalls (hook m)) initial = activeFocus (hook m) ->
  let m' := run m (committed sessions) in
  listenerFocus m' = activeFocus (hook m')
  /\ distinctNeighbours (initial :: setActiveFocusCalls (hook m'))
  /\ last (setActiveFocusCalls (hook m')) initial = activeFocus (hook m')
  /\ length (setActiveFocusCalls (hook m'))
     <= length (setActiveFocusCalls (hook m)) + length sessions.
Proof.
  induction sessions as [|s r IH] using rev_ind; intros Hc Hd Hl; cbv zeta.
  - simpl. auto with arith.
  - destruct (IH Hc Hd Hl) as (Hc' & Hd' & Hl' & Hn').
    rewrite run_committed_snoc, (length_app r). cbn [length].
    set (g := run m (committed r)) in *.
    cbn [commit hook listenerFocus].
    destruct (membershipsChanged_fields g s) as (_ & Fa & Fc).
    rewrite Fa, Fc. split; [reflexivity|].
    unfold differs.
    destruct (deepCompare (listenerFocus g) (focusOf s)) eqn:E; cbn [negb].
    + rewrite app_nil_r. repeat split; auto. lia.
    + apply ActiveFocusFacts.deepCompare_neq in E. rewrite Hc' in E.
      repeat split.
      * change (initial :: (setActiveFocusCalls (hook g) ++ [focusOf s]))%list
          with ((initial :: setActiveFocusCalls (hook g)) ++ [focusOf s])%list.
        apply (distinctNeighbours_snoc _ initial); [discriminate|exact Hd'|].
        destruct (setActiveFocusCalls (hook g)) as [|c cs] eqn:Ec.
        -- simpl in *. congruence.
        -- change (last (initial :: c :: cs) initial) with (last (c :: cs) initial).
           congruence.
      * apply last_last.
      * rewrite length_app. simpl. lia.
Qed.

(** X20. Between two committed renders the listener compares with the
    focus of the earlier one: over notifications with no render between
    them it calls [setActiveFocus] at each one that finds a focus other
    than that, with the focus found, and the state is the argument of
    the last call; so the same focus can be set twice in a row.  With a
    render committed after each notification no two calls in a row have
    the same argument, the first differs from the value the hook started
    with, there are no more calls than notifications, and the published
    value is the argument of the last call. *)
Theorem listener_publications
    (sessions : list MatrixRTCSession) (rtcSession : MatrixRTCSession)
    (evs : list Event) :
  let initial := fst (getActiveFocus rtcSession) in
  (let m := run (mount rtcSession) evs in
   let m' := run m (notifications sessions) in
   let changes := map focusOf (filter (differs (listenerFocus m)) sessions) in
   listenerFocus m' = listenerFocus m
   /\ setActiveFocusCalls (hook m') = (setActiveFocusCalls (hook m) ++ changes)%list
   /\ activeFocus (hook m') = last changes (activeFocus (hook m)))
  /\ (let h := hook (run (mount rtcSession) (committed sessions)) in
      distinctNeighbours (initial :: setActiveFocusCalls h)
      /\ last (setActiveFocusCalls h) initial = activeFocus h
      /\ length (setActiveFocusCalls h) <= length sessions)
  /\ setActiveFocusCalls
       (hook (run (mount Examples.sessionA)
                (notifications [Examples.sessionB; Examples.sessionB])))
     = [Some Examples.focusB; Some Examples.focusB].
Proof.
  intros initial. split; [|split].
  - apply run_notifications.
  - destruct (mount_fields rtcSession) as (Ml & Ma & Mc).
    destruct (committed_calls sessions (mount rtcSession) initial)
      as (_ & Hd & Hl & Hn).
    + rewrite Ml, Ma. reflexivity.
    + rewrite Mc. simpl. exact I.
    + rewrite Mc, Ma. reflexivity.
    + rewrite Mc in Hn. auto.
  - reflexivity.
Qed.

End ActiveFocusRunFacts.

(** ** src/room/VideoPreview.tsx *)

Module VideoPreviewFacts.
Import VideoPreview.

Lemma renders_frozen (rs : list Reads) (options : TrackOptions) :
  map fst (renders (Some options) rs)
  = map (fun _ => assignToEmpty (Some options)) rs
  /\ map snd (renders (Some options) rs)
     = map (fun r => enabledOptions (videoEnabled r) (videoSelectedId r)) rs.
Proof.
  induction rs as [|r rest [IH1 IH2]]; [split; reflexivity|].
  simpl. rewrite IH1, IH2. split; reflexivity.
Qed.

(** X21. Over the renders of a mounted preview the audio option asked
    for is the one of the first render, whatever happens to the audio
    settings later, and it is always an object, also when audio is
    disabled; the video option follows every render. *)
Theorem renders_audio_of_first_render (first : Reads) (later : list Reads) :
  let requests := renders None (first :: later) in
  Forall (fun request =>
            fst request
            = Options (if audioEnabled first then audioSelectedId first else None))
         requests
  /\ map snd requests
     = map (fun r => enabledOptions (videoEnabled r) (videoSelectedId r))
         (first :: later).
Proof.
  simpl.
  destruct (renders_frozen later
              (enabledOptions (audioEnabled first) (audioSelectedId first)))
    as [H1 H2].
  split.
  - assert (Ha : assignToEmpty
                   (Some (enabledOptions (audioEnabled first) (audioSelectedId first)))
                 = Options (if audioEnabled first then audioSelectedId first else None)).
    { unfold enabledOptions. destruct (audioEnabled first); reflexivity. }
    constructor; [exact Ha|].
    rewrite Forall_forall. intros request Hin.
    apply (in_map fst) in Hin. rewrite H1 in Hin.
    apply in_map_iff in Hin as (_ & <- & _). exact Ha.
  - rewrite H2. reflexivity.
Qed.

End VideoPreviewFacts.

(** ** src/home/CallList.tsx *)

Module CallListFacts.
Import CallList.

(** X22. The list has one tile for each room, in the order of the
    rooms: the tile of a room has the room's alias as its key and is
    given the client, the room's name, avatar, id and participants.
    After the tiles come two spacers when there are more than three
    rooms, and nothing otherwise.  The key being the alias, two rooms
    with the same alias have tiles with the same key, whatever their
    ids. *)
Theorem callList_tiles_and_spacers (rooms : list GroupCallRoom) (client : nat) :
  let children := callList rooms client in
  length children = length rooms + (if (3 <? length rooms)%nat then 2 else 0)
  /\ (forall i r,
        nth_error rooms i = Some r ->
        nth_error children i
        = Some (CallTile (roomAlias r) client (roomName r) (avatarUrl r)
                  (Matrix.roomId (room r)) (participants r)))
  /\ (forall i e,
        length rooms <= i -> nth_error children i = Some e ->
        e = CallTileSpacer /\ 3 < length rooms /\ i < length rooms + 2)
  /\ (3 < length rooms ->
      nth_error children (length rooms) = Some CallTileSpacer
      /\ nth_error children (S (length rooms)) = Some CallTileSpacer)
  /\ length (filter isSpacer children) = (if (3 <? length rooms)%nat then 2 else 0)
  /\ (forall i j ri rj,
        nth_error rooms i = Some ri -> nth_error rooms j = Some rj ->
        roomAlias ri = roomAlias rj ->
        exists ei ej,
          nth_error children i = Some ei /\ nth_error children j = Some ej
          /\ key ei = Some (roomAlias ri) /\ key ej = key ei).
Proof.
  cbv zeta. unfold callList.
  set (tile := fun r => CallTile (roomAlias r) client (roomName r) (avatarUrl r)
                          (Matrix.roomId (room r)) (participants r)).
  set (spacers := if (3 <? length rooms)%nat
                  then [CallTileSpacer; CallTileSpacer] else []).
  assert (Htile : forall i r, nth_error rooms i = Some r ->
                    nth_error (map tile rooms ++ spacers) i = Some (tile r)).
  { intros i r H. rewrite nth_error_app1.
    - apply map_nth_error, H.
    - rewrite length_map. apply nth_error_Some. congruence. }
  assert (Hs : forall l, filter isSpacer (map tile l) = []).
  { intros l. induction l as [|r rest IH]; [reflexivity|]. simpl. apply IH. }
  specialize (Hs rooms).
  split; [|split; [|split; [|split; [|split]]]].
  - rewrite length_app, length_map. subst spacers.
    destruct (3 <? length rooms)%nat; reflexivity.
  - exact Htile.
  - intros i e Hi H. rewrite nth_error_app2 in H by (rewrite length_map; exact Hi).
    rewrite length_map in H. subst spacers.
    destruct (3 <? length rooms)%nat eqn:E.
    + apply Nat.ltb_lt in E.
      destruct (i - length rooms) as [|[|k]] eqn:Ek; simpl in H.
      * injection H as <-. repeat split; [exact E|lia].
      * injection H as <-. repeat split; [exact E|lia].
      * destruct k; discriminate.
    + destruct (i - length rooms); discriminate.
  - intros H. apply Nat.ltb_lt in H. subst spacers. rewrite H.
    rewrite !nth_error_app2 by (rewrite length_map; lia).
    rewrite length_map, Nat.sub_diag.
    replace (S (length rooms) - length rooms) with 1 by lia.
    split; reflexivity.
  - rewrite filter_app, Hs. subst spacers.
    destruct (3 <? length rooms)%nat; reflexivity.
  - intros i j ri rj Hi Hj Ha.
    exists (tile ri), (tile rj).
    split; [exact (Htile i ri Hi)|]. split; [exact (Htile j rj Hj)|].
    split; [reflexivity|]. simpl. rewrite Ha. reflexivity.
Qed.

(** Two rooms with different ids and one alias: the two tiles have the
    same key. *)
Example callList_same_alias :
  map key
    (callList
       [{| room := {| Matrix.roomId := "!a:example.org" |};
           roomAlias := "#call:example.org"; roomName := "Call";
           avatarUrl := ""; participants := [] |};
        {| room := {| Matrix.roomId := "!b:example.org" |};
           roomAlias := "#call:example.org"; roomName := "Call";
           avatarUrl := ""; participants := [] |}] 1)
  = [Some "#call:example.org"; Some "#call:example.org"].
Proof. reflexivity. Qed.

End CallListFacts.
